(** * PhyloShape: ancestral shape reconstruction

    A shallow embedding of [phyloshape/phylo/src/phylo.py] (class
    [PhyloShape]) and [phyloshape/shape/src/vertex.py] (class [Vertices]),
    with the properties of the reconstruction pipeline stated over it.

    Conventions of the embedding:
    - Python exceptions are values of [PyError]; a computation that may raise
      returns a [Res]; a method of [PhyloShape] is a state transformer that
      keeps the object as it was at the point where the exception was raised;
    - floating point numbers are rationals ([Q]); the arithmetic of the
      initial guess is rounded to binary64 ([fl]) as NumPy does it;
    - NumPy arrays are a shape and the row-major list of their entries;
    - the tree (toytree), the symbolic back end (symengine), the optimiser
      (scipy) and the random generator (numpy.random) are not part of the
      package: they are the fields of [Externals]. *)

From Stdlib Require Import QArith ZArith String List Bool Arith Lia.
From Stdlib Require Import DecimalString Lqa Qround Qpower.
From stdpp Require Import base list.
Import ListNotations.

#[local] Open Scope string_scope.
#[local] Open Scope list_scope.
#[local] Open Scope nat_scope.

(** ** Exceptions and results *)

Inductive PyError : Type :=
| AssertionError (msg : string)
| AttributeError (attr : string)
| IndexError
| KeyError
| TypeError
| ValueError
| ZeroDivisionError
| NotImplementedError
| PyException (msg : string).

(** The message of an [assert] that gives none. *)
Definition no_message : string := EmptyString.

Inductive Res (A : Type) : Type :=
| Ok (a : A)
| Raise (e : PyError).

Arguments Ok {A} a.
Arguments Raise {A} e.

Definition res_bind {A B : Type} (r : Res A) (k : A -> Res B) : Res B :=
  match r with
  | Ok a => k a
  | Raise e => Raise e
  end.

(** A method body: it runs on the object of type [S], may raise, and leaves
    the object as mutated so far. *)
Definition M (S A : Type) : Type := S -> Res A * S.

Definition ret {S A : Type} (a : A) : M S A := fun s => (Ok a, s).

Definition raise {S A : Type} (e : PyError) : M S A := fun s => (Raise e, s).

Definition bind {S A B : Type} (m : M S A) (k : A -> M S B) : M S B :=
  fun s =>
    match m s with
    | (Ok a, s') => k a s'
    | (Raise e, s') => (Raise e, s')
    end.

Definition get {S : Type} : M S S := fun s => (Ok s, s).

Definition modify {S : Type} (f : S -> S) : M S unit := fun s => (Ok tt, f s).

Definition lift_res {S A : Type} (r : Res A) : M S A := fun s => (r, s).

Declare Scope py_scope.
Delimit Scope py_scope with py.
Notation "'do' x <- m ; k" := (bind m (fun x => k))
  (at level 10, x name, m at level 100, k at level 200) : py_scope.
Notation "'do' ' p <- m ; k" := (bind m (fun x => match x with p => k end))
  (at level 10, p pattern, m at level 100, k at level 200) : py_scope.
Notation "'run' m ; k" := (bind m (fun _ => k))
  (at level 10, m at level 100, k at level 200) : py_scope.

(** [for x in xs: body x], stopping at the first exception. *)
Fixpoint for_each {S A : Type} (xs : list A) (body : A -> M S unit) : M S unit :=
  match xs with
  | [] => ret tt
  | x :: xs' => bind (body x) (fun _ => for_each xs' body)
  end.

(** ** Symbolic expressions (symengine) *)

Definition Symbol : Type := string.

Inductive Expr : Type :=
| Num (q : Q)
| Sym (s : Symbol)
| Pi
| Add (a b : Expr)
| Mul (a b : Expr)
| Neg (a : Expr)
| Pow (a : Expr) (n : Z)
| Log (a : Expr).

(** The value of an expression, for a chosen interpretation of the
    logarithm and of pi, under a valuation of the symbols. *)
Fixpoint eval (lg : Q -> Q) (pi : Q) (env : Symbol -> Q) (e : Expr) : Q :=
  match e with
  | Num q => q
  | Sym s => env s
  | Pi => pi
  | Add a b => (eval lg pi env a + eval lg pi env b)%Q
  | Mul a b => (eval lg pi env a * eval lg pi env b)%Q
  | Neg a => (- eval lg pi env a)%Q
  | Pow a n => Qpower (eval lg pi env a) n
  | Log a => lg (eval lg pi env a)
  end.

(** ** NumPy arrays *)

Record ndarray : Type := mk_ndarray {
  shape : list nat;
  data : list Expr
}.

(** [np.prod(shape)]: an integer for a non-empty shape; for the shape [()]
    NumPy returns the float [1.0], which neither [range] nor a slice bound
    accepts. *)
Inductive np_number : Type :=
| NpInt (n : nat)
| NpFloat.

Definition np_prod (sh : list nat) : np_number :=
  match sh with
  | [] => NpFloat
  | _ => NpInt (fold_right Nat.mul 1 sh)
  end.

(** The number of entries of an array of shape [sh] ([len(a.flatten())]). *)
Definition size_of (sh : list nat) : nat := fold_right Nat.mul 1 sh.

(** An operation that needs an integer. *)
Definition as_index (n : np_number) : Res nat :=
  match n with
  | NpInt k => Ok k
  | NpFloat => Raise TypeError
  end.

(** [np.array(values).reshape(sh)] *)
Definition reshape (values : list Expr) (sh : list nat) : Res ndarray :=
  if length values =? size_of sh
  then Ok (mk_ndarray sh values)
  else Raise ValueError.

(** [a[lo:hi]] for [0 <= lo <= hi]: the bounds are clipped to the list. *)
Definition slice {A : Type} (l : list A) (lo hi : nat) : list A :=
  firstn (hi - lo) (skipn lo l).

(** ** Vertices (vertex.py) *)

Definition Coord : Type := (Q * Q * Q)%type.
Definition RGB : Type := (Z * Z * Z)%type.

Record Vertices : Type := mk_Vertices {
  coords : list Coord;
  colors : list RGB
}.

(** [Vertices.__init__(coords=None, colors=None)] *)
Definition Vertices_init (coords_arg : option (list Coord))
    (colors_arg : option (list RGB)) : Res Vertices :=
  let self_coords := match coords_arg with None => [] | Some c => c end in
  let self_colors := match colors_arg with None => [] | Some c => c end in
  if length self_coords =? length self_colors
  then Ok (mk_Vertices self_coords self_colors)
  else Raise (AssertionError no_message).

(** ** The tree (toytree) *)

(** A node of the tree with the attributes the package reads ([name],
    [_dist], [up]) and the ones it attaches ([vertices], [vectors],
    [vectors_symbols]); an attribute that was never assigned is [None] and
    reading it raises [AttributeError].  [up] is the index of the parent. *)
Record Node : Type := mk_Node {
  name : string;
  dist : Q;
  up : option nat;
  vertices : option Vertices;
  vectors : option ndarray;
  vectors_symbols : option ndarray
}.

(** Nodes are stored by index: tips are [0 .. ntips - 1], ancestral nodes
    [ntips .. nnodes - 1].  [traverse] lists the indices in the order in
    which [tree.traverse()] yields the nodes. *)
Record Tree : Type := mk_Tree {
  nodes : list Node;
  ntips : nat;
  traverse : list nat
}.

Definition nnodes (t : Tree) : nat := length (nodes t).

Definition is_root (nd : Node) : bool :=
  match up nd with
  | None => true
  | Some _ => false
  end.

Definition with_vertices (v : Vertices) (nd : Node) : Node :=
  mk_Node (name nd) (dist nd) (up nd) (Some v) (vectors nd) (vectors_symbols nd).

Definition with_vectors (a : ndarray) (nd : Node) : Node :=
  mk_Node (name nd) (dist nd) (up nd) (vertices nd) (Some a) (vectors_symbols nd).

Definition with_vectors_and_symbols (a : ndarray) (nd : Node) : Node :=
  mk_Node (name nd) (dist nd) (up nd) (vertices nd) (Some a) (Some a).

Definition update_node (i : nat) (f : Node -> Node) (t : Tree) : Tree :=
  mk_Tree (alter f i (nodes t)) (ntips t) (traverse t).

(** [tree[i]] *)
Definition tree_getitem (t : Tree) (i : nat) : Res Node :=
  match nodes t !! i with
  | Some nd => Ok nd
  | None => Raise IndexError
  end.

(** Reading an attribute that the package attaches to nodes. *)
Definition getattr {A : Type} (attr : string) (o : option A) : Res A :=
  match o with
  | Some a => Ok a
  | None => Raise (AttributeError attr)
  end.

(** [range(lo, hi)] *)
Definition range (lo hi : nat) : list nat := seq lo (hi - lo).

(** ** Shape samples *)

Section WithFaces.

Variable Faces : Type.

(** Modelled from the spec: [ShapeAlignment] (shape_alignment.py) is not among
    the sources.  The spec describes the shape input as "a collection of
    (label, coordinate-array) pairs; label must exactly match a leaf name";
    the methods used by [PhyloShape] are membership of a label, indexing by a
    label or by a position, iteration over the pairs, and the attribute
    [faces]. *)
Record ShapeAlignment : Type := mk_ShapeAlignment {
  samples : list (string * Vertices);
  sa_faces : Faces
}.

Definition sa_contains (sa : ShapeAlignment) (label : string) : bool :=
  existsb (fun p => String.eqb (fst p) label) (samples sa).

Definition sa_getitem (sa : ShapeAlignment) (label : string) : Res (string * Vertices) :=
  match find (fun p => String.eqb (fst p) label) (samples sa) with
  | Some p => Ok p
  | None => Raise KeyError
  end.

Definition sa_getitem0 (sa : ShapeAlignment) : Res (string * Vertices) :=
  match samples sa with
  | p :: _ => Ok p
  | [] => Raise IndexError
  end.

End WithFaces.

Arguments samples {Faces} _.
Arguments sa_faces {Faces} _.
Arguments sa_contains {Faces} sa label.
Arguments sa_getitem {Faces} sa label.
Arguments sa_getitem0 {Faces} sa.

(** ** Collaborators of the package *)

(** Modelled from the spec: the interface [MotionModel] (models.py) is not
    among the sources.  A model can "produce a symbolic log-likelihood term
    for one branch given branch length, parent vector (symbolic or numeric),
    child vector (symbolic or numeric), and a logarithm function" and "report
    the ordered list of the model's own free parameter symbols". *)
Record MotionModel : Type := mk_MotionModel {
  form_log_like : Q -> ndarray -> ndarray -> (Expr -> Expr) -> Expr;
  get_parameters : list Expr
}.

(** Modelled from the spec: the class [VertexVectorMapper] (vectors.py) is not
    among the sources.  [to_vectors] maps the vertices of a sample to "a
    fixed-shape numeric array", [to_vertices] "reconstructs vertex
    coordinates" from a vector array; [vh_list] is what the translator
    reports about its encoding, of which the package logs the length. *)
Record Translator : Type := mk_Translator {
  vh_list : list (nat * nat);
  to_vectors : Vertices -> Res ndarray;
  to_vertices : ndarray -> Res (list Coord)
}.

(** [scipy.optimize.OptimizeResult] *)
Record OptimizeResult : Type := mk_OptimizeResult {
  success : bool;
  fun_ : Q;
  x : list Q
}.

(** What the package imports: the state of the outside world ([World]: the
    global NumPy generator and whatever the optimiser touches), the random
    draw, the compilation that symengine's [lambdify] performs once it has
    accepted its arguments ([compile_lambda]), scipy's [basinhopping] with
    the fixed keyword arguments of the call, the default model and the two
    translator constructors. *)
Class Externals : Type := {
  Faces : Type;
  World : Type;
  Lambdified : Type;
  np_random : nat -> World -> list Q * World;
  compile_lambda : list Expr -> list Expr -> Res Lambdified;
  basinhopping : Lambdified -> list Q -> World -> Res OptimizeResult * World;
  Brownian : MotionModel;
  VertexVectorMapper : list (list Coord) -> string -> Z -> Z -> Res Translator;
  VertexVectorMapperOld : Vertices -> Res Translator
}.

(** ** The class PhyloShape *)

Section PhyloShape.

Context {ext : Externals}.

#[local] Open Scope py_scope.

Record PhyloShape : Type := mk_PhyloShape {
  tree : Tree;
  shapes : ShapeAlignment Faces;
  faces : Faces;
  model : MotionModel;
  vect_transform : option (list ndarray -> Res (list ndarray));
  vect_inverse_transform : option (ndarray -> Res ndarray);
  variables : list Expr;
  vv_translator : option Translator;
  loglike_form : Expr;
  negloglike_func : option Lambdified;
  negloglike_func_s : option Lambdified;
  result : option OptimizeResult
}.

Definition set_tree (t : Tree) (s : PhyloShape) : PhyloShape :=
  mk_PhyloShape t (shapes s) (faces s) (model s) (vect_transform s)
    (vect_inverse_transform s) (variables s) (vv_translator s) (loglike_form s)
    (negloglike_func s) (negloglike_func_s s) (result s).

Definition set_variables (vs : list Expr) (s : PhyloShape) : PhyloShape :=
  mk_PhyloShape (tree s) (shapes s) (faces s) (model s) (vect_transform s)
    (vect_inverse_transform s) vs (vv_translator s) (loglike_form s)
    (negloglike_func s) (negloglike_func_s s) (result s).

Definition set_vv_translator (tr : option Translator) (s : PhyloShape) : PhyloShape :=
  mk_PhyloShape (tree s) (shapes s) (faces s) (model s) (vect_transform s)
    (vect_inverse_transform s) (variables s) tr (loglike_form s)
    (negloglike_func s) (negloglike_func_s s) (result s).

Definition set_loglike_form (e : Expr) (s : PhyloShape) : PhyloShape :=
  mk_PhyloShape (tree s) (shapes s) (faces s) (model s) (vect_transform s)
    (vect_inverse_transform s) (variables s) (vv_translator s) e
    (negloglike_func s) (negloglike_func_s s) (result s).

Definition set_negloglike_func (f : option Lambdified) (s : PhyloShape) : PhyloShape :=
  mk_PhyloShape (tree s) (shapes s) (faces s) (model s) (vect_transform s)
    (vect_inverse_transform s) (variables s) (vv_translator s) (loglike_form s)
    f (negloglike_func_s s) (result s).

Definition set_negloglike_func_s (f : option Lambdified) (s : PhyloShape) : PhyloShape :=
  mk_PhyloShape (tree s) (shapes s) (faces s) (model s) (vect_transform s)
    (vect_inverse_transform s) (variables s) (vv_translator s) (loglike_form s)
    (negloglike_func s) f (result s).

Definition set_result (r : option OptimizeResult) (s : PhyloShape) : PhyloShape :=
  mk_PhyloShape (tree s) (shapes s) (faces s) (model s) (vect_transform s)
    (vect_inverse_transform s) (variables s) (vv_translator s) (loglike_form s)
    (negloglike_func s) (negloglike_func_s s) r.

(** [self.tree[i]] *)
Definition self_tree_getitem (i : nat) : M PhyloShape Node :=
  fun s => (tree_getitem (tree s) i, s).

(** [self.tree[i].attr = value]: the node is looked up, then mutated. *)
Definition self_tree_setattr (i : nat) (f : Node -> Node) : M PhyloShape unit :=
  do _ <- self_tree_getitem i;
  modify (fun s => set_tree (update_node i f (tree s)) s).

(** *** Construction *)

(** [__map_shape_to_tip]: it runs inside [__init__] on the attributes [tree]
    and [shapes], which are all the object has at that point. *)
Definition map_shape_to_tip (shapes_ : ShapeAlignment Faces) : M Tree unit :=
  do t <- get;
  for_each (range 0 (ntips t)) (fun node_id =>
    do leaf_node <- (fun t => (tree_getitem t node_id, t));
    if sa_contains shapes_ (name leaf_node)
    then
      do item <- lift_res (sa_getitem shapes_ (name leaf_node));
      modify (update_node node_id (with_vertices (snd item)))
    else
      raise (AssertionError
        ("data must include all tips in the tree. Missing=" ++ name leaf_node)%string)).

Definition pairing_message : string :=
  "vect_transform and vect_inverse_transform must be used together!".

Definition is_None {A : Type} (o : option A) : bool :=
  match o with
  | None => true
  | Some _ => false
  end.

(** [PhyloShape.__init__].  The tree object is shared with the caller, so the
    tree as the constructor leaves it is returned next to the outcome.  The
    argument [model_] is a [MotionModel] when it is given: the assertion
    [isinstance(self.model, MotionModel)] holds by typing. *)
Definition PhyloShape_init (tree_obj : Tree) (shape_alignments : ShapeAlignment Faces)
    (model_ : option MotionModel)
    (vect_transform_ : option (list ndarray -> Res (list ndarray)))
    (vect_inverse_transform_ : option (ndarray -> Res ndarray))
  : Res PhyloShape * Tree :=
  match map_shape_to_tip shape_alignments tree_obj with
  | (Raise e, t) => (Raise e, t)
  | (Ok _, t) =>
      let self_model := match model_ with Some m => m | None => Brownian end in
      if Bool.eqb (is_None vect_transform_) (is_None vect_inverse_transform_)
      then
        (Ok (mk_PhyloShape t shape_alignments (sa_faces shape_alignments) self_model
               vect_transform_ vect_inverse_transform_
               [] None (Num 0) None None None), t)
      else (Raise (AssertionError pairing_message), t)
  end.

(** *** Translator and tip vectors *)

Definition build_vv_translator (mode : string) (num_vs num_vt_iter : Z)
  : M PhyloShape unit :=
  run modify (set_vv_translator None);
  do self <- get;
  do tr <-
    (if String.eqb mode "old"
     then
       do item <- lift_res (sa_getitem0 (shapes self));
       lift_res (VertexVectorMapperOld (snd item))
     else
       lift_res (VertexVectorMapper
                   (map (fun p => coords (snd p)) (samples (shapes self)))
                   mode num_vs num_vt_iter));
  modify (set_vv_translator (Some tr)).

(** [self.vv_translator.to_vectors(self.tree[node_id].vertices)] *)
Definition tip_to_vectors (node_id : nat) : M PhyloShape ndarray :=
  do self <- get;
  do tr <- lift_res (getattr "to_vectors" (vv_translator self));
  do leaf_node <- self_tree_getitem node_id;
  do vs <- lift_res (getattr "vertices" (vertices leaf_node));
  lift_res (to_vectors tr vs).

(** A loop that appends one value per iteration to a list. *)
Fixpoint collect {S A B : Type} (xs : list A) (body : A -> M S B) : M S (list B) :=
  match xs with
  | [] => ret []
  | x :: xs' =>
      do b <- body x;
      do bs <- collect xs' body;
      ret (b :: bs)
  end.

(** [enumerate(l)] *)
Definition enumerate {A : Type} (l : list A) : list (nat * A) :=
  combine (seq 0 (length l)) l.

Definition build_tip_vectors : M PhyloShape unit :=
  do self <- get;
  match vect_transform self with
  | None =>
      for_each (range 0 (ntips (tree self))) (fun node_id =>
        do leaf_node <- self_tree_getitem node_id;
        do self' <- get;
        do tr <- lift_res (getattr "to_vectors" (vv_translator self'));
        do vs <- lift_res (getattr "vertices" (vertices leaf_node));
        do v <- lift_res (to_vectors tr vs);
        self_tree_setattr node_id (with_vectors v))
  | Some transform =>
      do vectors_list <- collect (range 0 (ntips (tree self))) tip_to_vectors;
      do transformed <- lift_res (transform vectors_list);
      run for_each (enumerate transformed) (fun p =>
            self_tree_setattr (fst p) (with_vectors (snd p)));
      (* the log line reads vectors_list[0].shape and self.tree[0].vectors.shape *)
      do _ <- lift_res (match vectors_list with
                        | v :: _ => Ok v
                        | [] => Raise IndexError
                        end);
      do node0 <- self_tree_getitem 0;
      do _ <- lift_res (getattr "vectors" (vectors node0));
      ret tt
  end.

(** *** Symbols of the ancestral vectors *)

Definition str (n : nat) : string := NilEmpty.string_of_uint (Nat.to_uint n).

(** [Symbol("%s_%s" % (node_id, go_v))] *)
Definition symbol_name (node_id go_v : nat) : Symbol :=
  (str node_id ++ "_" ++ str go_v)%string.

(** [self.tree[0].vectors.shape] *)
Definition shared_vectors_shape : M PhyloShape (list nat) :=
  do node0 <- self_tree_getitem 0;
  do v <- lift_res (getattr "vectors" (vectors node0));
  ret (shape v).

Definition sym_ancestral_vectors : M PhyloShape unit :=
  do vectors_shape <- shared_vectors_shape;
  let n_vals := np_prod vectors_shape in
  do self <- get;
  for_each (range (ntips (tree self)) (nnodes (tree self))) (fun node_id =>
    do _ <- self_tree_getitem node_id;
    do n <- lift_res (as_index n_vals);
    do a <- lift_res (reshape (map (fun go_v => Sym (symbol_name node_id go_v)) (range 0 n))
                        vectors_shape);
    self_tree_setattr node_id (with_vectors_and_symbols a)).

(** *** The log-likelihood formula *)

(** [__update_variables] *)
Definition update_variables : M PhyloShape unit :=
  run modify (set_variables []);
  run modify (fun s => set_variables (variables s ++ get_parameters (model s)) s);
  do self <- get;
  for_each (range (ntips (tree self)) (nnodes (tree self))) (fun ancestral_node_id =>
    do nd <- self_tree_getitem ancestral_node_id;
    do syms <- lift_res (getattr "vectors_symbols" (vectors_symbols nd));
    modify (fun s => set_variables (variables s ++ data syms) s)).

(** One iteration of the loop of [formularize_log_like], on the node of
    index [i] yielded by [traverse]. *)
Definition formularize_step (log_func : Expr -> Expr) (i : nat) : M PhyloShape unit :=
  do node <- self_tree_getitem i;
  match up node with
  | None => ret tt (* node.is_root() *)
  | Some j =>
      do parent <- self_tree_getitem j;
      do from_states <- lift_res (getattr "vectors" (vectors parent));
      do to_states <- lift_res (getattr "vectors" (vectors node));
      do self <- get;
      let new_term :=
        form_log_like (model self) (dist node) from_states to_states log_func in
      modify (fun s => set_loglike_form (Add (loglike_form s) new_term) s)
  end.

Definition formularize_log_like (log_func : Expr -> Expr) : M PhyloShape unit :=
  run modify (set_loglike_form (Num 0));
  do self <- get;
  run for_each (traverse (tree self)) (formularize_step log_func);
  update_variables.

(** [symengine.lambdify(args, exprs)]: symengine refuses an empty list of
    arguments with a [NotImplementedError] ("Support for zero arguments not
    yet supported") before it compiles anything. *)
Definition lambdify (args exprs : list Expr) : Res Lambdified :=
  match args with
  | [] => Raise NotImplementedError
  | _ :: _ => compile_lambda args exprs
  end.

Definition functionalize_log_like : M PhyloShape unit :=
  do self <- get;
  do f <- lift_res (lambdify (variables self) [Neg (loglike_form self)]);
  run modify (set_negloglike_func (Some f));
  (* negloglike_func_s is the same compiled function, called on the entries
     of its argument x *)
  modify (set_negloglike_func_s (Some f)).

(** *** Unpacking the optimiser's result *)

(** The loop of [__summarize_ml_result]; it returns the final [go_p]. *)
Fixpoint summarize_loop (ids : list nat) (xs : list Q) (vectors_shape : list nat)
    (n_vals : np_number) (go_p : nat) : M PhyloShape nat :=
  match ids with
  | [] => ret go_p
  | anc_node_id :: ids' =>
      do n <- lift_res (as_index n_vals);
      let to_p := go_p + n in
      do a <- lift_res (reshape (map Num (slice xs go_p to_p)) vectors_shape);
      run self_tree_setattr anc_node_id (with_vectors a);
      summarize_loop ids' xs vectors_shape n_vals to_p
  end.

(** [__summarize_ml_result]; the fitted model parameters, which the method
    only logs, are returned. *)
Definition summarize_ml_result : M PhyloShape (list Q) :=
  do self <- get;
  let model_params_signs := get_parameters (model self) in
  let go_p := length model_params_signs in
  do res <- lift_res (getattr "x" (result self));
  let model_params := slice (x res) 0 go_p in
  do vectors_shape <- shared_vectors_shape;
  let n_vals := np_prod vectors_shape in
  do _ <- summarize_loop (range (ntips (tree self)) (nnodes (tree self)))
            (x res) vectors_shape n_vals go_p;
  ret model_params.

(** *** The optimisation loop *)

Fixpoint res_map {A B : Type} (f : A -> Res B) (l : list A) : Res (list B) :=
  match l with
  | [] => Ok []
  | a :: l' =>
      res_bind (f a) (fun b => res_bind (res_map f l') (fun bs => Ok (b :: bs)))
  end.

(** [len(np.average([self.tree[i].vectors for i in range(ntips)], axis=0).flatten())]:
    the arrays must agree in shape; when they have no entry, [np.average]
    divides the size of its argument by the size of the mean, 0 by 0, and
    raises [ZeroDivisionError]; the average of no array at all is the scalar
    nan, which flattens to one entry. *)
Definition vector_mean_length (self : PhyloShape) : Res nat :=
  res_bind
    (res_map (fun n_id =>
                res_bind (tree_getitem (tree self) n_id)
                         (fun nd => getattr "vectors" (vectors nd)))
             (range 0 (ntips (tree self))))
    (fun vs =>
       match vs with
       | [] => Ok 1
       | v :: vs' =>
           if forallb (fun v' => bool_decide (shape v' = shape v)) vs'
           then
             if size_of (shape v) =? 0
             then Raise ZeroDivisionError
             else Ok (size_of (shape v))
           else Raise ValueError
       end).

(** *** binary64 arithmetic

    NumPy computes on binary64 values.  A positive binary64 value is a
    rational [m * 2^(e - 52)] with [m <= 2^53] and [-1022 <= e]; an
    operation returns the value nearest to its exact result, a tie going to
    the even [m].  Overflow to infinity (from [2^1024] on) is not modelled:
    the values rounded here are below 2. *)

(** The integer part of the binary logarithm of [n / d]. *)
Definition floor_log2 (n d : positive) : Z :=
  let k := (Z.log2 (Z.pos n) - Z.log2 (Z.pos d))%Z in
  if Qle_bool (2 ^ k) (Z.pos n # d) then k else (k - 1)%Z.

Definition round_half_even (q : Q) : Z :=
  let f := Qfloor q in
  match (q - inject_Z f ?= 1 # 2)%Q with
  | Lt => f
  | Gt => (f + 1)%Z
  | Eq => if Z.even f then f else (f + 1)%Z
  end.

(** The binary64 value nearest to [n / d]: 53 significant bits at the
    exponent of [n / d], or at the least exponent [-1022] below it. *)
Definition fl_pos (n d : positive) : Q :=
  let e := Z.max (floor_log2 n d) (-1022) in
  (inject_Z (round_half_even ((Z.pos n # d) * 2 ^ (52 - e))) * 2 ^ (e - 52))%Q.

Definition fl (q : Q) : Q :=
  match Qnum q with
  | Z0 => 0%Q
  | Z.pos n => fl_pos n (Qden q)
  | Z.neg n => (- fl_pos n (Qden q))%Q
  end.

(** [1 - (u - 0.5) * 0.01], on binary64 values: the literal [0.01] is the
    binary64 value nearest to 1/100, and each of the three operations
    rounds its result. *)
Definition perturb (u : Q) : Q :=
  fl (1 - fl (fl (u - (1 # 2)) * fl (1 # 100)))%Q.

(** The first index of [a[-k:]] in an array of length [n]: [-0] is [0], and a
    [k] beyond the length is clipped to the whole array. *)
Definition tail_start (n k : nat) : nat :=
  if k =? 0 then 0 else n - k.

(** [initials[-len_vt:] = 1 - (initials[-len_vt:] - 0.5) * 0.01] *)
Definition propose_initials (len_vt : nat) (initials : list Q) : list Q :=
  let start := tail_start (length initials) len_vt in
  firstn start initials ++ map perturb (skipn start initials).

(** The body of the [while] loop up to the call of the optimiser: one
    attempt, on the object [self] and the outside world [w]. *)
Definition attempt (self : PhyloShape) (w : World) : Res OptimizeResult * World :=
  match vector_mean_length self with
  | Raise e => (Raise e, w)
  | Ok len_vt =>
      let (drawn, w1) := np_random (length (variables self)) w in
      let initials := propose_initials len_vt drawn in
      match negloglike_func_s self with
      | None => (Raise TypeError, w1)
      | Some f => basinhopping f initials w1
      end
  end.

(** [while count_run < 200: ...], with the loop variables [count_run] and
    [success_runs]; [fuel] bounds the number of iterations. *)
Fixpoint attempt_loop (fuel count_run : nat) (success_runs : list OptimizeResult)
    (self : PhyloShape) (w : World) : Res (nat * list OptimizeResult) * World :=
  match fuel with
  | 0 => (Ok (count_run, success_runs), w)
  | S fuel' =>
      if count_run <? 200
      then
        match attempt self w with
        | (Raise e, w') => (Raise e, w')
        | (Ok result_, w') =>
            if success result_
            then (Ok (count_run, success_runs ++ [result_]), w')
            else attempt_loop fuel' (count_run + 1) success_runs self w'
        end
      else (Ok (count_run, success_runs), w)
  end.

(** A method that leaves the outside world alone. *)
Definition on_self {A : Type} (m : M PhyloShape A) : M (PhyloShape * World) A :=
  fun sw =>
    match m (fst sw) with
    | (r, s') => (r, (s', snd sw))
    end.

Definition minimize_negloglike (num_proc : Z) : M (PhyloShape * World) unit :=
  fun sw =>
    let (self, w) := sw in
    match attempt_loop 200 0 [] self w with
    | (Raise e, w') => (Raise e, (self, w'))
    | (Ok (_, success_runs), w') =>
        match success_runs with
        | result_ :: _ =>
            on_self (run modify (set_result (Some result_));
                     do _ <- summarize_ml_result;
                     ret tt) (self, w')
        | [] => (Raise (PyException "optimization failed!"), (self, w'))
        end
    end.

(** *** Ancestral vertices *)

Definition build_ancestral_vertices : M PhyloShape unit :=
  do self <- get;
  match vect_inverse_transform self with
  | None =>
      for_each (range (ntips (tree self)) (nnodes (tree self))) (fun anc_node_id =>
        do s <- get;
        do tr <- lift_res (getattr "to_vertices" (vv_translator s));
        do nd <- self_tree_getitem anc_node_id;
        do v <- lift_res (getattr "vectors" (vectors nd));
        do cs <- lift_res (to_vertices tr v);
        do vs <- lift_res (Vertices_init (Some cs) None);
        self_tree_setattr anc_node_id (with_vertices vs))
  | Some inverse =>
      for_each (range (ntips (tree self)) (nnodes (tree self))) (fun anc_node_id =>
        do nd <- self_tree_getitem anc_node_id;
        do v <- lift_res (getattr "vectors" (vectors nd));
        do real_vectors <- lift_res (inverse v);
        do s <- get;
        do tr <- lift_res (getattr "to_vertices" (vv_translator s));
        do cs <- lift_res (to_vertices tr real_vectors);
        do vs <- lift_res (Vertices_init (Some cs) None);
        self_tree_setattr anc_node_id (with_vertices vs))
  end.

(** *** The entry point *)

Definition reconstruct_ancestral_shapes_using_ml (mode : string)
    (num_vs num_vt_iter num_proc : Z) : M (PhyloShape * World) unit :=
  run on_self (build_vv_translator mode num_vs num_vt_iter);
  run on_self build_tip_vectors;
  run on_self sym_ancestral_vectors;
  run on_self (formularize_log_like Log);
  run on_self functionalize_log_like;
  run minimize_negloglike 1;
  on_self build_ancestral_vertices.

End PhyloShape.

(** * Concrete collaborators, used to run the model on examples *)

Module Toy.

(** Modelled from the spec: the class [Brownian] (models.py) is not among the
    sources.  "The log-likelihood term is the sum over vector components of
    the standard Gaussian log-density" with mean the parent component and
    variance the rate times the branch length; "the rate parameter is the
    model's sole free parameter". *)
Definition sigma2 : Expr := Sym "sigma2".

Definition gaussian_term (log_f : Expr -> Expr) (time : Q) (from_ to_ : Expr) : Expr :=
  let variance := Mul sigma2 (Num time) in
  Add (Mul (Num (-1 # 2)) (log_f (Mul (Mul (Num 2) Pi) variance)))
      (Neg (Mul (Pow (Add to_ (Neg from_)) 2)
                (Pow (Mul (Num 2) variance) (-1)))).

Definition brownian : MotionModel :=
  mk_MotionModel
    (fun time from_states to_states log_f =>
       fold_left Add
         (map (fun p => gaussian_term log_f time (fst p) (snd p))
              (combine (data from_states) (data to_states)))
         (Num 0))
    [sigma2].

(** A translator that encodes a shape by the flat list of its coordinates. *)
Definition flatten_coords (cs : list Coord) : list Expr :=
  flat_map (fun c => [Num (fst (fst c)); Num (snd (fst c)); Num (snd c)]) cs.

Definition as_number (e : Expr) : Q :=
  match e with
  | Num q => q
  | _ => 0
  end.

Fixpoint triples (fuel : nat) (l : list Expr) : list Coord :=
  match fuel, l with
  | S fuel', a :: b :: c :: l' =>
      (as_number a, as_number b, as_number c) :: triples fuel' l'
  | _, _ => []
  end.

Definition translator : Translator :=
  mk_Translator []
    (fun vs => Ok (mk_ndarray [length (coords vs); 3] (flatten_coords (coords vs))))
    (fun a => Ok (triples (length (data a)) (data a))).

(** The outside world counts the random draws and the optimiser's calls; the
    optimiser reports success on the calls selected by [succeeds]. *)
Record world : Type := mk_world {
  draws : nat;
  optimiser_calls : nat
}.

Definition externals (succeeds : nat -> bool) : Externals := {|
  Faces := unit;
  World := world;
  Lambdified := list Expr * list Expr;
  np_random := fun n w =>
    (repeat (1 # 2)%Q n, mk_world (S (draws w)) (optimiser_calls w));
  compile_lambda := fun args exprs => Ok (args, exprs);
  basinhopping := fun f x0 w =>
    (Ok (mk_OptimizeResult (succeeds (optimiser_calls w)) 0 x0),
     mk_world (draws w) (S (optimiser_calls w)));
  Brownian := brownian;
  VertexVectorMapper := fun _ _ _ _ => Ok translator;
  VertexVectorMapperOld := fun _ => Ok translator
|}.

Definition tip (nm : string) (parent : nat) : Node :=
  mk_Node nm 1 (Some parent) None None None.

Definition inner (parent : option nat) : Node :=
  mk_Node "ancestor" 1 parent None None None.

(** Two tips under one root. *)
Definition cherry : Tree :=
  mk_Tree [tip "a" 2; tip "b" 2; inner None] 2 [0; 1; 2].

(** Three tips and two ancestral nodes: ((a, b), c). *)
Definition three_tips : Tree :=
  mk_Tree [tip "a" 3; tip "b" 3; tip "c" 4; inner (Some 4); inner None] 3
          [0; 1; 3; 2; 4].

Definition point (q : Q) : Vertices := mk_Vertices [(q, 0, 0)%Q] [(0, 0, 0)%Z].

Definition alignment (labels : list string) : ShapeAlignment unit :=
  mk_ShapeAlignment unit (map (fun l => (l, point 1)) labels) tt.

End Toy.

(** Objects on which the statements are run. *)
Module Examples.

Import Toy.

Definition blank (succeeds : nat -> bool) : PhyloShape (ext := externals succeeds) :=
  mk_PhyloShape (ext := externals succeeds) cherry (alignment []) tt brownian
    None None [] None (Num 0) None None None.

(** The object built by [PhyloShape(tree, alignment)]. *)
Definition constructed (succeeds : nat -> bool) (t : Tree) (labels : list string)
  : PhyloShape (ext := externals succeeds) :=
  match fst (PhyloShape_init (ext := externals succeeds) t (alignment labels)
               None None None) with
  | Ok self => self
  | Raise _ => blank succeeds
  end.

(** The object once the formula is built and compiled. *)
Definition compiled (succeeds : nat -> bool) (t : Tree) (labels : list string)
  : PhyloShape (ext := externals succeeds) :=
  snd ((run build_vv_translator "network-local" 20 5;
        run build_tip_vectors;
        run sym_ancestral_vectors;
        run formularize_log_like Log;
        functionalize_log_like)%py (constructed succeeds t labels)).

(** The object once the ancestral vectors have their symbols. *)
Definition symbolised (succeeds : nat -> bool) (t : Tree) (labels : list string)
  : PhyloShape (ext := externals succeeds) :=
  snd ((run build_vv_translator "network-local" 20 5;
        run build_tip_vectors;
        sym_ancestral_vectors)%py (constructed succeeds t labels)).

Definition start : world := mk_world 0 0.

(** A valuation of the free variables. *)
Definition valuation (e : Expr) : Q :=
  eval (fun q => q) 3 (fun s => if String.eqb s "sigma2" then 2 else 7 # 10)%Q e.

(** The object after [minimize_negloglike]. *)
Definition minimized (succeeds : nat -> bool) (t : Tree) (labels : list string)
  : PhyloShape (ext := externals succeeds) :=
  fst (snd (minimize_negloglike (ext := externals succeeds) 1
              (compiled succeeds t labels, start))).

Definition never : nat -> bool := fun _ => false.
Definition always : nat -> bool := fun _ => true.
Definition from_third : nat -> bool := fun calls => 2 <=? calls.

End Examples.

(** * Definitions used by the statements *)

Section Statements.

Context {ext : Externals}.

(** The coordinates that [build_ancestral_vertices] reconstructs for a node
    whose vector is [v]: through the inverse transform when there is one. *)
Definition reconstructed_coords (self : PhyloShape) (tr : Translator) (v : ndarray)
  : Res (list Coord) :=
  match vect_inverse_transform self with
  | None => to_vertices tr v
  | Some inverse => res_bind (inverse v) (to_vertices tr)
  end.

(** The ancestral node [i] has a vector and its coordinates are [cs]. *)
Definition reconstructs_to (self : PhyloShape) (tr : Translator) (i : nat)
    (cs : list Coord) : Prop :=
  exists nd v,
    nodes (tree self) !! i = Some nd /\ vectors nd = Some v /\
    reconstructed_coords self tr v = Ok cs.

(** The part of the object that the loop of [build_ancestral_vertices] reads
    is the same in [s] as in [self]: the translator, the inverse transform,
    and the vector of every node. *)
Definition same_vectors (self s : PhyloShape) : Prop :=
  vv_translator s = vv_translator self /\
  vect_inverse_transform s = vect_inverse_transform self /\
  forall i nd, nodes (tree self) !! i = Some nd ->
    exists nd', nodes (tree s) !! i = Some nd' /\ vectors nd' = vectors nd.

(** One iteration of either loop of [build_ancestral_vertices]. *)
Definition vertices_step (inv : option (ndarray -> Res ndarray)) (anc_node_id : nat)
  : M PhyloShape unit :=
  match inv with
  | None =>
      (do s <- get;
       do tr <- lift_res (getattr "to_vertices" (vv_translator s));
       do nd <- self_tree_getitem anc_node_id;
       do v <- lift_res (getattr "vectors" (vectors nd));
       do cs <- lift_res (to_vertices tr v);
       do vs <- lift_res (Vertices_init (Some cs) None);
       self_tree_setattr anc_node_id (with_vertices vs))%py
  | Some inverse =>
      (do nd <- self_tree_getitem anc_node_id;
       do v <- lift_res (getattr "vectors" (vectors nd));
       do real_vectors <- lift_res (inverse v);
       do s <- get;
       do tr <- lift_res (getattr "to_vertices" (vv_translator s));
       do cs <- lift_res (to_vertices tr real_vectors);
       do vs <- lift_res (Vertices_init (Some cs) None);
       self_tree_setattr anc_node_id (with_vertices vs))%py
  end.

(** The text of the missing-data assertion for the tip called [nm]. *)
Definition missing_message (nm : string) : string :=
  ("data must include all tips in the tree. Missing=" ++ nm)%string.

(** The tree [t] has the nodes of [t0], under the same names. *)
Definition same_names (t0 t : Tree) : Prop :=
  ntips t = ntips t0 /\ traverse t = traverse t0 /\
  forall i nd, nodes t0 !! i = Some nd ->
    exists nd', nodes t !! i = Some nd' /\ name nd' = name nd /\
                vectors nd' = vectors nd.

(** The body of the loop of [__map_shape_to_tip]. *)
Definition bind_tip (shapes_ : ShapeAlignment Faces) (node_id : nat) : M Tree unit :=
  (do leaf_node <- (fun t => (tree_getitem t node_id, t));
   if sa_contains shapes_ (name leaf_node)
   then
     do item <- lift_res (sa_getitem shapes_ (name leaf_node));
     modify (update_node node_id (with_vertices (snd item)))
   else
     raise (AssertionError
       ("data must include all tips in the tree. Missing=" ++ name leaf_node)%string))%py.

(** The tree with another traversal order. *)
Definition reorder (order : list nat) (t : Tree) : Tree :=
  mk_Tree (nodes t) (ntips t) order.

(** The symbols of the ancestral node of index [i], flattened. *)
Definition node_symbols (t : Tree) (i : nat) : list Expr :=
  match nodes t !! i with
  | Some nd =>
      match vectors_symbols nd with
      | Some a => data a
      | None => []
      end
  | None => []
  end.

(** The packing of the free variables, in the words of the spec: "model
    parameters (model-defined order) followed by every internal node's
    flattened symbol array in tree node-index order". *)
Definition packing (self : PhyloShape) : list Expr :=
  get_parameters (model self) ++
  flat_map (node_symbols (tree self))
    (range (ntips (tree self)) (nnodes (tree self))).

Definition ancestors_have_symbols (t : Tree) : Prop :=
  forall i, ntips t <= i < nnodes t ->
    exists nd a, nodes t !! i = Some nd /\ vectors_symbols nd = Some a.

(** The term of the branch above the node of index [i], in the words of the
    spec: "the Motion Model's per-branch term using branch length, the
    parent's vector, and the node's own vector".  It is undefined for the
    root, for a dangling index and for a node without a vector. *)
Definition branch_term (m : MotionModel) (t : Tree) (log_func : Expr -> Expr) (i : nat)
  : option Expr :=
  match nodes t !! i with
  | Some nd =>
      match up nd with
      | Some j =>
          match nodes t !! j with
          | Some parent =>
              match vectors parent, vectors nd with
              | Some from_states, Some to_states =>
                  Some (form_log_like m (dist nd) from_states to_states log_func)
              | _, _ => None
              end
          | None => None
          end
      | None => None
      end
  | None => None
  end.

Definition non_root (t : Tree) (i : nat) : bool :=
  match nodes t !! i with
  | Some nd => negb (is_root nd)
  | None => false
  end.

(** The node of index [i] exists and, unless it is the root, its branch has
    a term. *)
Definition branch_ready (m : MotionModel) (t : Tree) (log_func : Expr -> Expr) (i : nat)
  : Prop :=
  exists nd, nodes t !! i = Some nd /\
             (is_root nd = false -> is_Some (branch_term m t log_func i)).

(** The running sum of a list of terms, from 0. *)
Definition running_sum (terms : list Expr) : Expr := fold_left Add terms (Num 0).

Definition Qsum (l : list Q) : Q := fold_right Qplus 0%Q l.

(** The outside world after [n] attempts of the optimisation loop, started
    in the world [w]. *)
Fixpoint world_after (n : nat) (self : PhyloShape) (w : World) : World :=
  match n with
  | 0 => w
  | S n' => world_after n' self (snd (attempt self w))
  end.

(** The outcome of the attempt of index [k] (the first one has index 0). *)
Definition attempt_result (k : nat) (self : PhyloShape) (w : World)
  : Res OptimizeResult :=
  fst (attempt self (world_after k self w)).

Definition reports_failure (r : Res OptimizeResult) : Prop :=
  exists res, r = Ok res /\ success res = false.

(** What [minimize_negloglike] does with a successful result. *)
Definition keep_result (result_ : OptimizeResult) : M PhyloShape unit :=
  (run modify (set_result (Some result_));
   do _ <- summarize_ml_result;
   ret tt)%py.

(** The array of fresh symbols that [sym_ancestral_vectors] gives the node of
    index [node_id], for the shared shape [sh]. *)
Definition fresh_symbols (sh : list nat) (node_id : nat) : ndarray :=
  mk_ndarray sh (map (fun go_v => Sym (symbol_name node_id go_v)) (range 0 (size_of sh))).

(** The body of the loop of [sym_ancestral_vectors]. *)
Definition symbolise_node (vectors_shape : list nat) (node_id : nat) : M PhyloShape unit :=
  (do _ <- self_tree_getitem node_id;
   do n <- lift_res (as_index (np_prod vectors_shape));
   do a <- lift_res (reshape (map (fun go_v => Sym (symbol_name node_id go_v)) (range 0 n))
                       vectors_shape);
   self_tree_setattr node_id (with_vectors_and_symbols a))%py.

(** What [functionalize_log_like] reads and writes: the variable list and
    the two compiled functions. *)
Definition compiler_state (s : PhyloShape)
  : list Expr * option Lambdified * option Lambdified :=
  (variables s, negloglike_func s, negloglike_func_s s).

(** The method [m] leaves the observation [f] of the object as it was, in
    every outcome. *)
Definition keeps {A X : Type} (f : PhyloShape -> X) (m : M PhyloShape A) : Prop :=
  forall s, f (snd (m s)) = f s.

(** The objects on which [formularize_log_like] has not run yet: the object
    as constructed, and what the other methods make of it, in any order and
    whether they succeed or raise.  The entry point
    [reconstruct_ancestral_shapes_using_ml] is not among them: it calls
    [formularize_log_like]. *)
Inductive before_formula : PhyloShape -> Prop :=
| before_formula_init :
    forall (tree_obj : Tree) (sa : ShapeAlignment Faces) (model_ : option MotionModel)
           (vt : option (list ndarray -> Res (list ndarray)))
           (vit : option (ndarray -> Res ndarray)) (self : PhyloShape),
      fst (PhyloShape_init tree_obj sa model_ vt vit) = Ok self ->
      before_formula self
| before_formula_translator :
    forall (mode : string) (num_vs num_vt_iter : Z) (s : PhyloShape),
      before_formula s ->
      before_formula (snd (build_vv_translator mode num_vs num_vt_iter s))
| before_formula_tip_vectors :
    forall s : PhyloShape,
      before_formula s -> before_formula (snd (build_tip_vectors s))
| before_formula_symbols :
    forall s : PhyloShape,
      before_formula s -> before_formula (snd (sym_ancestral_vectors s))
| before_formula_functionalize :
    forall s : PhyloShape,
      before_formula s -> before_formula (snd (functionalize_log_like s))
| before_formula_minimize :
    forall (num_proc : Z) (s : PhyloShape) (w : World),
      before_formula s ->
      before_formula (fst (snd (minimize_negloglike num_proc (s, w))))
| before_formula_vertices :
    forall s : PhyloShape,
      before_formula s -> before_formula (snd (build_ancestral_vertices s)).

End Statements.

(** The interval of the perturbed initial values: within 0.5% of 1. *)
Definition near_one (q : Q) : Prop := (995 # 1000 < q /\ q <= 1005 # 1000)%Q.

(** The draws of [np.random.random]: the binary64 values of [0, 1), none of
    which is above [1 - 2^-53]. *)
Definition unit_double (u : Q) : Prop := (0 <= u /\ u <= 1 - 2 ^ (-53))%Q.

(** The interval of the perturbed initial values as binary64 computes them:
    from [8962163258467287 / 2^53] to [1131529406376837 / 2^50]. *)
Definition near_one_binary64 (q : Q) : Prop :=
  (8962163258467287 # 9007199254740992 <= q /\
   q <= 1131529406376837 # 1125899906842624)%Q.

Ltac unfold_py :=
  unfold bind, ret, raise, get, modify, lift_res, self_tree_getitem,
    self_tree_setattr, tree_getitem, getattr, res_bind in *.


(** * Definitions used by the further properties *)

From Stdlib Require Import Ascii DecimalNat.

Section MoreStatements.

Context {ext : Externals}.

(** The node of index [i] exists, and so does its parent when it has one. *)
Definition branch_wired (t : Tree) (i : nat) : Prop :=
  exists nd, nodes t !! i = Some nd /\
             forall j, up nd = Some j -> is_Some (nodes t !! j).

(** The branch above the node of index [i] cannot be evaluated: the node or
    its parent has no vector yet. *)
Definition branch_blocked (t : Tree) (i : nat) : Prop :=
  exists nd j parent,
    nodes t !! i = Some nd /\ up nd = Some j /\ nodes t !! j = Some parent /\
    (vectors parent = None \/ vectors nd = None).

(** Two nodes that differ at most in their vector. *)
Definition same_but_vectors (nd nd' : Node) : Prop :=
  name nd' = name nd /\ dist nd' = dist nd /\ up nd' = up nd /\
  vertices nd' = vertices nd /\ vectors_symbols nd' = vectors_symbols nd.

(** What unpacking a result leaves alone: every attribute of the object
    other than the tree and the stored result; in the tree, the number of
    tips, the traversal, the number of nodes, the tips, and all of an
    ancestral node but its vector. *)
Definition only_ancestral_vectors_differ (s s' : PhyloShape) : Prop :=
  (shapes s', faces s', model s', vect_transform s', vect_inverse_transform s',
   variables s', vv_translator s', loglike_form s', negloglike_func s',
   negloglike_func_s s')
  = (shapes s, faces s, model s, vect_transform s, vect_inverse_transform s,
     variables s, vv_translator s, loglike_form s, negloglike_func s,
     negloglike_func_s s) /\
  ntips (tree s') = ntips (tree s) /\
  traverse (tree s') = traverse (tree s) /\
  length (nodes (tree s')) = length (nodes (tree s)) /\
  forall i nd nd',
    nodes (tree s) !! i = Some nd -> nodes (tree s') !! i = Some nd' ->
    same_but_vectors nd nd' /\ (i < ntips (tree s) -> nd' = nd).

(** The array that unpacking the vector [xs] gives the ancestral node [i],
    for [p] model parameters and vectors of shape [sh]. *)
Definition unpacked_vector (xs : list Q) (p ntips_ : nat) (sh : list nat) (i : nat)
  : ndarray :=
  mk_ndarray sh
    (map Num (slice xs (p + (i - ntips_) * size_of sh)
                       (p + (i - ntips_) * size_of sh + size_of sh))).

(** The body of the loop of [build_tip_vectors] when there is no transform. *)
Definition vectorise_tip (node_id : nat) : M PhyloShape unit :=
  (do leaf_node <- self_tree_getitem node_id;
   do self' <- get;
   do tr <- lift_res (getattr "to_vectors" (vv_translator self'));
   do vs <- lift_res (getattr "vertices" (vertices leaf_node));
   do v <- lift_res (to_vectors tr vs);
   self_tree_setattr node_id (with_vectors v))%py.

(** The vector that the translator [tr] computes for the tip of index [i]. *)
Definition tip_vector (tr : Translator) (t : Tree) (i : nat) : Res ndarray :=
  res_bind (tree_getitem t i)
    (fun nd => res_bind (getattr "vertices" (vertices nd)) (to_vectors tr)).

(** The node of index [i] exists in a tree of [n] nodes, and its parent, when
    it has one, is one of these nodes too. *)
Definition wired_within (t : Tree) (i : nat) : Prop :=
  exists nd, nodes t !! i = Some nd /\ forall j, up nd = Some j -> j < nnodes t.

(** What building the formula leaves alone: everything but the formula and
    the variable list. *)
Definition only_formula_and_variables_differ (s s' : PhyloShape) : Prop :=
  (tree s', shapes s', faces s', model s', vect_transform s',
   vect_inverse_transform s', vv_translator s', negloglike_func s',
   negloglike_func_s s', result s')
  = (tree s, shapes s, faces s, model s, vect_transform s,
     vect_inverse_transform s, vv_translator s, negloglike_func s,
     negloglike_func_s s, result s).

End MoreStatements.

(** Collaborators whose translator reconstructs no vertex at all. *)
Module Hollow.

Definition translator : Translator :=
  mk_Translator [] (to_vectors Toy.translator) (fun _ => Ok []).

Definition externals (succeeds : nat -> bool) : Externals := {|
  Faces := unit;
  World := Toy.world;
  Lambdified := list Expr * list Expr;
  np_random := fun n w =>
    (repeat (1 # 2)%Q n, Toy.mk_world (S (Toy.draws w)) (Toy.optimiser_calls w));
  compile_lambda := fun args exprs => Ok (args, exprs);
  basinhopping := fun f x0 w =>
    (Ok (mk_OptimizeResult (succeeds (Toy.optimiser_calls w)) 0 x0),
     Toy.mk_world (Toy.draws w) (S (Toy.optimiser_calls w)));
  Brownian := Toy.brownian;
  VertexVectorMapper := fun _ _ _ _ => Ok translator;
  VertexVectorMapperOld := fun _ => Ok translator
|}.

(** The object built by [PhyloShape(tree, alignment)] with these
    collaborators. *)
Definition constructed (t : Tree) (labels : list string)
  : PhyloShape (ext := externals Examples.always) :=
  match fst (PhyloShape_init (ext := externals Examples.always) t
               (Toy.alignment labels) None None None) with
  | Ok self => self
  | Raise _ =>
      mk_PhyloShape (ext := externals Examples.always) Toy.cherry (Toy.alignment [])
        tt Toy.brownian None None [] None (Num 0) None None None
  end.

End Hollow.

(** More objects on which the statements are run. *)
Module MoreExamples.

Import Toy Examples.

(** The object once the translator is built. *)
Definition translated (t : Tree) (labels : list string)
  : PhyloShape (ext := externals always) :=
  snd (build_vv_translator "network-local" 20 5 (constructed always t labels)).

(** The object once the tips have their vectors. *)
Definition vectorised (t : Tree) (labels : list string)
  : PhyloShape (ext := externals always) :=
  snd (build_tip_vectors (translated t labels)).

(** An object built with a pair of transforms (the identity and itself),
    once its translator is built. *)
Definition translated_with_transforms (t : Tree) (labels : list string)
  : PhyloShape (ext := externals always) :=
  match fst (PhyloShape_init (ext := externals always) t (alignment labels) None
               (Some (fun l => Ok l)) (Some (fun v => Ok v))) with
  | Ok self => snd (build_vv_translator "network-local" 20 5 self)
  | Raise _ => blank always
  end.

(** Results of the optimiser for the cherry (one rate and three components):
    one that is too short, one with an entry too many. *)
Definition short_result : OptimizeResult :=
  mk_OptimizeResult true 0 [2; 7 # 10; 7 # 10]%Q.

Definition long_result : OptimizeResult :=
  mk_OptimizeResult true 0 [2; 7 # 10; 8 # 10; 9 # 10; 5]%Q.

(** The object after [minimize_negloglike], with the translator that
    reconstructs no vertex. *)
Definition hollow_minimized (t : Tree) (labels : list string)
  : PhyloShape (ext := Hollow.externals always) :=
  fst (snd (minimize_negloglike (ext := Hollow.externals always) 1
              (snd ((run build_vv_translator "network-local" 20 5;
                     run build_tip_vectors;
                     run sym_ancestral_vectors;
                     run formularize_log_like Log;
                     functionalize_log_like)%py (Hollow.constructed t labels)),
               start))).

End MoreExamples.

(** * Properties *)

(** ** Vertices *)

Lemma Vertices_init_nonempty_no_colors (cs : list Coord) :
  cs <> [] -> Vertices_init (Some cs) None = Raise (AssertionError no_message).
Proof.
  intros Hcs. unfold Vertices_init.
  destruct cs as [|c cs']; [congruence | reflexivity].
Qed.

Lemma Vertices_init_empty_no_colors :
  Vertices_init (Some []) None = Ok (mk_Vertices [] []).
Proof. reflexivity. Qed.

Section AncestralVertices.

Context {ext : Externals}.

Lemma same_vectors_refl self : same_vectors self self.
Proof. repeat split; eauto. Qed.

Lemma same_vectors_set_vertices self s i vs :
  same_vectors self s ->
  same_vectors self (set_tree (update_node i (with_vertices vs) (tree s)) s).
Proof.
  intros (Htr & Hinv & Hnodes). repeat split; simpl; auto.
  intros j nd Hj. destruct (Hnodes j nd Hj) as (nd' & Hnd' & Hv).
  destruct (decide (i = j)) as [->|Hne].
  - exists (with_vertices vs nd'). split; [|exact Hv].
    rewrite list_lookup_alter_eq, Hnd'. reflexivity.
  - exists nd'. split; [|exact Hv].
    rewrite list_lookup_alter_ne by exact Hne. exact Hnd'.
Qed.

Lemma build_ancestral_vertices_unfold self :
  build_ancestral_vertices self =
  for_each (range (ntips (tree self)) (nnodes (tree self)))
    (vertices_step (vect_inverse_transform self)) self.
Proof.
  unfold build_ancestral_vertices, bind, get.
  destruct (vect_inverse_transform self); reflexivity.
Qed.

Lemma vertices_step_outcome self tr s i cs :
  vv_translator self = Some tr ->
  same_vectors self s ->
  reconstructs_to self tr i cs ->
  vertices_step (vect_inverse_transform self) i s =
    match cs with
    | [] => (Ok tt, set_tree (update_node i (with_vertices (mk_Vertices [] [])) (tree s)) s)
    | _ :: _ => (Raise (AssertionError no_message), s)
    end.
Proof.
  intros Htr (Hs_tr & Hs_inv & Hs_nodes) (nd & v & Hnd & Hv & Hcs).
  destruct (Hs_nodes i nd Hnd) as (nd' & Hnd' & Hv').
  unfold reconstructed_coords in Hcs. unfold vertices_step.
  destruct (vect_inverse_transform self) as [inverse|].
  - unfold_py. rewrite Hnd', Hv', Hv. simpl in Hcs.
    destruct (inverse v) as [rv|e]; [|discriminate].
    rewrite Hs_tr, Htr, Hcs.
    destruct cs; simpl; [unfold_py; rewrite Hnd'|]; reflexivity.
  - unfold_py. rewrite Hs_tr, Htr, Hnd', Hv', Hv, Hcs.
    destruct cs; simpl; [unfold_py; rewrite Hnd'|]; reflexivity.
Qed.

Lemma vertices_loop_raises self tr k cs_k :
  vv_translator self = Some tr ->
  cs_k <> [] ->
  reconstructs_to self tr k cs_k ->
  forall n a s,
    a <= k < a + n ->
    (forall i, a <= i <= k -> exists cs, reconstructs_to self tr i cs) ->
    same_vectors self s ->
    fst (for_each (seq a n) (vertices_step (vect_inverse_transform self)) s)
    = Raise (AssertionError no_message).
Proof.
  intros Htr Hne Hk. induction n as [|n IH]; intros a s Hrange Hbefore Hsame.
  - lia.
  - simpl. unfold bind.
    destruct (decide (a = k)) as [->|Hak].
    + rewrite (vertices_step_outcome self tr s k cs_k Htr Hsame Hk).
      destruct cs_k; [congruence | reflexivity].
    + destruct (Hbefore a ltac:(lia)) as (cs & Ha).
      rewrite (vertices_step_outcome self tr s a cs Htr Hsame Ha).
      destruct cs; [|reflexivity].
      apply IH; [lia | intros i Hi; apply Hbefore; lia |].
      apply same_vectors_set_vertices. exact Hsame.
Qed.

(** C3. [Vertices(coords)] with a non-empty [coords] and no colors fails the
    assertion [len(coords) == len(colors)]; and [build_ancestral_vertices]
    fails it as soon as an ancestral node is reconstructed to a non-empty
    set of coordinates (the nodes before it being reconstructed without
    another exception). *)
Theorem vertices_without_colors_assertion :
  (forall cs : list Coord,
      cs <> [] -> Vertices_init (Some cs) None = Raise (AssertionError no_message)) /\
  (forall (self : PhyloShape) (tr : Translator) (k : nat) (cs_k : list Coord),
      vv_translator self = Some tr ->
      ntips (tree self) <= k < nnodes (tree self) ->
      (forall i, ntips (tree self) <= i <= k -> exists cs, reconstructs_to self tr i cs) ->
      reconstructs_to self tr k cs_k ->
      cs_k <> [] ->
      fst (build_ancestral_vertices self) = Raise (AssertionError no_message)).
Proof.
  split; [exact Vertices_init_nonempty_no_colors|].
  intros self tr k cs_k Htr Hk Hbefore Hrec Hne.
  rewrite build_ancestral_vertices_unfold. unfold range.
  eapply vertices_loop_raises; eauto using same_vectors_refl.
  lia.
Qed.

End AncestralVertices.

(** ** Construction *)

Section Construction.

Context {ext : Externals}.

Lemma sa_contains_getitem (sa : ShapeAlignment Faces) (label : string) :
  sa_contains sa label = true -> exists p, sa_getitem sa label = Ok p.
Proof.
  unfold sa_contains, sa_getitem. intros H.
  induction (samples sa) as [|q l IH]; simpl in *; [discriminate|].
  destruct (String.eqb (fst q) label); eauto.
Qed.

Lemma same_names_refl t : same_names t t.
Proof. repeat split; eauto. Qed.

Lemma same_names_set_vertices t0 t i vs :
  same_names t0 t -> same_names t0 (update_node i (with_vertices vs) t).
Proof.
  intros (Hn & Htrav & Hnodes). repeat split; simpl; auto.
  intros j nd Hj. destruct (Hnodes j nd Hj) as (nd' & Hnd' & Hname & Hvec).
  destruct (decide (i = j)) as [->|Hne].
  - exists (with_vertices vs nd'). rewrite list_lookup_alter_eq, Hnd'. auto.
  - exists nd'. rewrite list_lookup_alter_ne by exact Hne. auto.
Qed.

Lemma map_shape_to_tip_unfold sa t :
  map_shape_to_tip sa t = for_each (range 0 (ntips t)) (bind_tip sa) t.
Proof. reflexivity. Qed.

Lemma bind_tip_found sa t a nd p :
  nodes t !! a = Some nd ->
  sa_getitem sa (name nd) = Ok p ->
  sa_contains sa (name nd) = true ->
  bind_tip sa a t = (Ok tt, update_node a (with_vertices (snd p)) t).
Proof.
  intros Hnd Hget Hin. unfold bind_tip. unfold_py.
  rewrite Hnd, Hin, Hget. reflexivity.
Qed.

Lemma bind_tip_missing sa t a nd :
  nodes t !! a = Some nd ->
  sa_contains sa (name nd) = false ->
  bind_tip sa a t = (Raise (AssertionError (missing_message (name nd))), t).
Proof.
  intros Hnd Hin. unfold bind_tip. unfold_py.
  rewrite Hnd, Hin. reflexivity.
Qed.

(** The loop of [__map_shape_to_tip] either binds every tip of its range, or
    stops at a tip that has no sample. *)
Lemma bind_tips_outcome sa t0 :
  forall n a t,
    same_names t0 t ->
    (forall j, a <= j < a + n -> is_Some (nodes t0 !! j)) ->
    (exists t',
        for_each (seq a n) (bind_tip sa) t = (Ok tt, t') /\ same_names t0 t' /\
        forall j nd, a <= j < a + n -> nodes t0 !! j = Some nd ->
                     sa_contains sa (name nd) = true) \/
    (exists j nd t',
        a <= j < a + n /\ nodes t0 !! j = Some nd /\
        sa_contains sa (name nd) = false /\ same_names t0 t' /\
        for_each (seq a n) (bind_tip sa) t
        = (Raise (AssertionError (missing_message (name nd))), t')).
Proof.
  induction n as [|n IH]; intros a t Hsame Hvalid.
  - left. exists t. split; [reflexivity|]. split; [exact Hsame|]. intros; lia.
  - destruct (Hvalid a ltac:(lia)) as [nd Hnd].
    pose proof Hsame as (_ & _ & Hnodes).
    destruct (Hnodes a nd Hnd) as (nd' & Hnd' & Hname & _).
    simpl. unfold bind.
    destruct (sa_contains sa (name nd)) eqn:Hin;
      pose proof Hin as Hin'; rewrite <- Hname in Hin'.
    + destruct (sa_contains_getitem sa (name nd') Hin') as [p Hp].
      rewrite (bind_tip_found sa t a nd' p Hnd' Hp Hin').
      specialize (IH (S a) (update_node a (with_vertices (snd p)) t)
                    (same_names_set_vertices _ _ _ _ Hsame)
                    ltac:(intros; apply Hvalid; lia)).
      destruct IH as [(t' & Hrun & Hsame' & Hall)|(j & ndj & t' & Hj & Hndj & Hout & Hs' & Hrun)].
      * left. exists t'. split; [exact Hrun|]. split; [exact Hsame'|].
        intros j ndj Hj Hndj. destruct (decide (j = a)) as [->|Hne].
        -- congruence.
        -- apply (Hall j); [lia | exact Hndj].
      * right. exists j, ndj, t'.
        split; [lia|]. split; [exact Hndj|]. split; [exact Hout|].
        split; [exact Hs'|exact Hrun].
    + rewrite (bind_tip_missing sa t a nd' Hnd' Hin'), Hname.
      right. exists a, nd, t.
      split; [lia|]. split; [exact Hnd|]. split; [exact Hin|].
      split; [exact Hsame|reflexivity].
Qed.

Lemma map_shape_to_tip_outcome sa t :
  ntips t <= nnodes t ->
  (exists t', map_shape_to_tip sa t = (Ok tt, t') /\ same_names t t' /\
      forall j nd, j < ntips t -> nodes t !! j = Some nd ->
                   sa_contains sa (name nd) = true) \/
  (exists j nd t', j < ntips t /\ nodes t !! j = Some nd /\
      sa_contains sa (name nd) = false /\ same_names t t' /\
      map_shape_to_tip sa t
      = (Raise (AssertionError (missing_message (name nd))), t')).
Proof.
  intros Hwf. rewrite map_shape_to_tip_unfold. unfold range.
  destruct (bind_tips_outcome sa t (ntips t - 0) 0 t (same_names_refl t)) as [H|H].
  - intros j Hj. apply lookup_lt_is_Some. unfold nnodes in Hwf. lia.
  - left. destruct H as (t' & Hrun & Hsame & Hall). exists t'.
    split; [exact Hrun|]. split; [exact Hsame|].
    intros j nd Hj. apply Hall. lia.
  - right. destruct H as (j & nd & t' & Hj & Hnd & Hout & Hsame & Hrun).
    exists j, nd, t'.
    split; [lia|]. split; [exact Hnd|]. split; [exact Hout|].
    split; [exact Hsame|exact Hrun].
Qed.

(** C7. When a tip of the tree has no sample under its name, the constructor
    raises the missing-data assertion for such a tip, whatever the model and
    the transforms are; no object exists on which a translator, a formula or
    an optimisation could be built, and the tree it leaves behind carries the
    vectors it had. *)
Theorem missing_tip_is_fatal_at_binding :
  forall (tree_obj : Tree) (sa : ShapeAlignment Faces) (model_ : option MotionModel)
         (vt : option (list ndarray -> Res (list ndarray)))
         (vit : option (ndarray -> Res ndarray)) (i : nat) (nd : Node),
    ntips tree_obj <= nnodes tree_obj ->
    i < ntips tree_obj ->
    nodes tree_obj !! i = Some nd ->
    sa_contains sa (name nd) = false ->
    exists j missing tree',
      j < ntips tree_obj /\ nodes tree_obj !! j = Some missing /\
      sa_contains sa (name missing) = false /\
      PhyloShape_init tree_obj sa model_ vt vit
      = (Raise (AssertionError (missing_message (name missing))), tree') /\
      same_names tree_obj tree'.
Proof.
  intros tree_obj sa model_ vt vit i nd Hwf Hi Hnd Hmiss.
  unfold PhyloShape_init.
  destruct (map_shape_to_tip_outcome sa tree_obj Hwf)
    as [(t' & Hrun & Hsame & Hall)|(j & ndj & t' & Hj & Hndj & Hout & Hsame & Hrun)].
  - rewrite (Hall i nd Hi Hnd) in Hmiss. discriminate.
  - exists j, ndj, t'. rewrite Hrun. auto.
Qed.



End Construction.

(** ** The numeric compiler and the entry point *)

Section Compiler.

Context {ext : Externals}.

(** [functionalize_log_like] on any object: its outcome is the outcome of
    [lambdify] on the current variable list and the negated formula. *)
Lemma functionalize_log_like_outcome (self : PhyloShape) :
  functionalize_log_like self =
  match lambdify (variables self) [Neg (loglike_form self)] with
  | Ok f => (Ok tt, set_negloglike_func_s (Some f) (set_negloglike_func (Some f) self))
  | Raise e => (Raise e, self)
  end.
Proof.
  unfold functionalize_log_like. unfold_py.
  destruct (lambdify (variables self) [Neg (loglike_form self)]); reflexivity.
Qed.

Lemma keeps_ret {A X : Type} (f : PhyloShape -> X) (a : A) : keeps f (ret a).
Proof. intros s. reflexivity. Qed.

Lemma keeps_raise {A X : Type} (f : PhyloShape -> X) (e : PyError) :
  keeps f (raise (A := A) e).
Proof. intros s. reflexivity. Qed.

Lemma keeps_get {X : Type} (f : PhyloShape -> X) : keeps f get.
Proof. intros s. reflexivity. Qed.

Lemma keeps_lift_res {A X : Type} (f : PhyloShape -> X) (r : Res A) :
  keeps f (lift_res r).
Proof. intros s. reflexivity. Qed.

Lemma keeps_modify {X : Type} (f : PhyloShape -> X) (g : PhyloShape -> PhyloShape) :
  (forall s, f (g s) = f s) -> keeps f (modify g).
Proof. intros H s. apply H. Qed.

Lemma keeps_bind {A B X : Type} (f : PhyloShape -> X) (m : M PhyloShape A)
    (k : A -> M PhyloShape B) :
  keeps f m -> (forall a, keeps f (k a)) -> keeps f (bind m k).
Proof.
  intros Hm Hk s. unfold bind. specialize (Hm s).
  destruct (m s) as [[a|e] s1]; cbn [snd] in *; [|exact Hm].
  rewrite (Hk a s1). exact Hm.
Qed.

Lemma keeps_for_each {A X : Type} (f : PhyloShape -> X) (body : A -> M PhyloShape unit) :
  (forall a, keeps f (body a)) -> forall l, keeps f (for_each l body).
Proof.
  intros Hbody. induction l as [|a l IH]; [apply keeps_ret|].
  cbn [for_each]. apply keeps_bind; [apply Hbody | intros _; exact IH].
Qed.

Lemma keeps_collect {A B X : Type} (f : PhyloShape -> X) (body : A -> M PhyloShape B) :
  (forall a, keeps f (body a)) -> forall l, keeps f (collect l body).
Proof.
  intros Hbody. induction l as [|a l IH]; [apply keeps_ret|].
  cbn [collect]. apply keeps_bind; [apply Hbody|]. intros b.
  apply keeps_bind; [exact IH | intros bs; apply keeps_ret].
Qed.

Lemma keeps_self_tree_getitem {X : Type} (f : PhyloShape -> X) (i : nat) :
  keeps f (self_tree_getitem i).
Proof. intros s. reflexivity. Qed.

Lemma keeps_compiler_state_setattr (i : nat) (g : Node -> Node) :
  keeps compiler_state (self_tree_setattr i g).
Proof.
  unfold self_tree_setattr. apply keeps_bind; [apply keeps_self_tree_getitem|].
  intros _. apply keeps_modify. reflexivity.
Qed.

Ltac keeps_steps :=
  repeat first
    [ apply keeps_ret | apply keeps_raise | apply keeps_get | apply keeps_lift_res
    | apply keeps_self_tree_getitem | apply keeps_compiler_state_setattr
    | apply keeps_modify; reflexivity
    | apply keeps_for_each; intros ?
    | apply keeps_collect; intros ?
    | apply keeps_bind; [|intros ?] ].

Lemma build_vv_translator_keeps_compiler_state mode num_vs num_vt_iter :
  keeps compiler_state (build_vv_translator mode num_vs num_vt_iter).
Proof.
  unfold build_vv_translator. keeps_steps.
  destruct (String.eqb mode "old"); keeps_steps.
Qed.

Lemma build_tip_vectors_keeps_compiler_state :
  keeps compiler_state build_tip_vectors.
Proof.
  unfold build_tip_vectors, tip_to_vectors. keeps_steps.
  match goal with
  | |- keeps _ (match vect_transform ?s with _ => _ end) =>
      destruct (vect_transform s)
  end; keeps_steps.
Qed.

Lemma sym_ancestral_vectors_keeps_compiler_state :
  keeps compiler_state sym_ancestral_vectors.
Proof. unfold sym_ancestral_vectors, shared_vectors_shape. keeps_steps. Qed.

Lemma build_ancestral_vertices_keeps_compiler_state :
  keeps compiler_state build_ancestral_vertices.
Proof.
  unfold build_ancestral_vertices. keeps_steps.
  match goal with
  | |- keeps _ (match vect_inverse_transform ?s with _ => _ end) =>
      destruct (vect_inverse_transform s)
  end; keeps_steps.
Qed.

Lemma summarize_loop_keeps_compiler_state ids xs sh n :
  forall go_p, keeps compiler_state (summarize_loop ids xs sh n go_p).
Proof.
  induction ids as [|i ids IH]; intros go_p; cbn [summarize_loop]; keeps_steps.
  apply IH.
Qed.

Lemma summarize_ml_result_keeps_compiler_state :
  keeps compiler_state summarize_ml_result.
Proof.
  unfold summarize_ml_result, shared_vectors_shape. keeps_steps.
  apply summarize_loop_keeps_compiler_state.
Qed.

Lemma minimize_negloglike_keeps_compiler_state num_proc (s : PhyloShape) (w : World) :
  compiler_state (fst (snd (minimize_negloglike num_proc (s, w)))) = compiler_state s.
Proof.
  unfold minimize_negloglike.
  destruct (attempt_loop 200 0 [] s w) as [[[count runs]|e] w']; [|reflexivity].
  destruct runs as [|r runs]; [reflexivity|].
  unfold on_self. cbn [fst snd].
  match goal with
  | |- context [match ?m s with _ => _ end] =>
      assert (Hkeeps : keeps compiler_state m)
        by (apply keeps_bind; [apply keeps_modify; reflexivity|intros ?];
            apply keeps_bind;
              [apply summarize_ml_result_keeps_compiler_state
              |intros ?; apply keeps_ret]);
      specialize (Hkeeps s); destruct (m s) as [res s']
  end.
  exact Hkeeps.
Qed.

Lemma before_formula_compiler_state (s : PhyloShape) :
  before_formula s -> compiler_state s = ([], None, None).
Proof.
  induction 1 as [tree_obj sa model_ vt vit self Hinit
                 | mode num_vs num_vt_iter s _ IH | s _ IH | s _ IH
                 | s _ IH | num_proc s w _ IH | s _ IH].
  - unfold PhyloShape_init in Hinit.
    destruct (map_shape_to_tip sa tree_obj) as [[u|e] t]; simpl in Hinit;
      [|discriminate].
    destruct (Bool.eqb (is_None vt) (is_None vit)); simpl in Hinit; [|discriminate].
    injection Hinit as <-. reflexivity.
  - rewrite build_vv_translator_keeps_compiler_state. exact IH.
  - rewrite build_tip_vectors_keeps_compiler_state. exact IH.
  - rewrite sym_ancestral_vectors_keeps_compiler_state. exact IH.
  - rewrite functionalize_log_like_outcome.
    assert (Hvars : variables s = [])
      by (unfold compiler_state in IH; congruence).
    rewrite Hvars. cbn [lambdify snd]. exact IH.
  - rewrite minimize_negloglike_keeps_compiler_state. exact IH.
  - rewrite build_ancestral_vertices_keeps_compiler_state. exact IH.
Qed.

(** C2. On an object on which [formularize_log_like] has not run yet (the
    object as constructed, or after any sequence of the other methods), the
    variable list is still empty: [functionalize_log_like] raises the
    [NotImplementedError] with which [lambdify] refuses an empty argument
    list, and leaves the object as it was, without any compiled function. *)
Theorem functionalize_before_formularize :
  forall s : PhyloShape,
    before_formula s ->
    functionalize_log_like s = (Raise NotImplementedError, s) /\
    negloglike_func s = None /\ negloglike_func_s s = None.
Proof.
  intros s Hbefore.
  apply before_formula_compiler_state in Hbefore.
  unfold compiler_state in Hbefore. injection Hbefore as Hvars Hf Hfs.
  split; [|split; assumption].
  rewrite functionalize_log_like_outcome, Hvars. reflexivity.
Qed.

(** C9. The argument [num_proc] has no influence: two runs that differ only
    in it have the same outcome and leave the same object and the same
    outside world, for the entry point and for [minimize_negloglike]. *)
Theorem num_proc_is_ignored :
  forall (mode : string) (num_vs num_vt_iter num_proc1 num_proc2 : Z)
         (self : PhyloShape) (w : World),
    reconstruct_ancestral_shapes_using_ml mode num_vs num_vt_iter num_proc1 (self, w)
    = reconstruct_ancestral_shapes_using_ml mode num_vs num_vt_iter num_proc2 (self, w)
    /\ minimize_negloglike num_proc1 (self, w) = minimize_negloglike num_proc2 (self, w).
Proof. intros. split; reflexivity. Qed.

End Compiler.

Lemma functionalize_before_formularize_witness :
  let self := MoreExamples.vectorised Toy.cherry ["a"; "b"] in
  functionalize_log_like self = (Raise NotImplementedError, self).
Proof.
  intros self.
  apply (proj1 (functionalize_before_formularize (ext := Toy.externals Examples.always)
                  self
                  (before_formula_tip_vectors _
                     (before_formula_translator "network-local" 20 5 _
                        (before_formula_init (ext := Toy.externals Examples.always)
                           Toy.cherry (Toy.alignment ["a"; "b"])
                           None None None _ eq_refl))))).
Defined.

(** ** The formula builder *)

Section FormulaBuilder.

Context {ext : Externals}.

Lemma update_variables_loop (self : PhyloShape) :
  forall ids vs,
    (forall i, In i ids -> exists nd a,
        nodes (tree self) !! i = Some nd /\ vectors_symbols nd = Some a) ->
    for_each ids
      (fun ancestral_node_id =>
         (do nd <- self_tree_getitem ancestral_node_id;
          do syms <- lift_res (getattr "vectors_symbols" (vectors_symbols nd));
          modify (fun s => set_variables (variables s ++ data syms) s))%py)
      (set_variables vs self)
    = (Ok tt, set_variables (vs ++ flat_map (node_symbols (tree self)) ids) self).
Proof.
  induction ids as [|i ids IH]; intros vs Hids.
  - simpl. rewrite app_nil_r. reflexivity.
  - destruct (Hids i (or_introl eq_refl)) as (nd & a & Hnd & Ha).
    simpl. unfold_py. simpl. rewrite Hnd, Ha.
    unfold node_symbols at 1. rewrite Hnd, Ha.
    rewrite app_assoc. apply IH. intros j Hj. apply Hids. right. exact Hj.
Qed.

Lemma update_variables_outcome (self : PhyloShape) :
  ancestors_have_symbols (tree self) ->
  update_variables self = (Ok tt, set_variables (packing self) self).
Proof.
  intros Hsyms. unfold update_variables, packing.
  unfold bind at 1, modify at 1. unfold bind at 1, modify at 1.
  unfold bind at 1, get at 1.
  apply (update_variables_loop self _ ([] ++ get_parameters (model self))).
  intros i Hi. apply Hsyms. unfold range in Hi. apply in_seq in Hi.
  simpl in Hi. lia.
Qed.

Lemma formularize_step_root (self : PhyloShape) lf i nd e :
  nodes (tree self) !! i = Some nd ->
  is_root nd = true ->
  formularize_step lf i (set_loglike_form e self) = (Ok tt, set_loglike_form e self).
Proof.
  intros Hnd Hroot. unfold formularize_step. unfold_py. simpl. rewrite Hnd.
  unfold is_root in Hroot. destruct (up nd); [discriminate | reflexivity].
Qed.

Lemma formularize_step_branch (self : PhyloShape) lf i nd term e :
  nodes (tree self) !! i = Some nd ->
  branch_term (model self) (tree self) lf i = Some term ->
  formularize_step lf i (set_loglike_form e self)
  = (Ok tt, set_loglike_form (Add e term) self).
Proof.
  intros Hnd Hterm. unfold formularize_step, branch_term in *. unfold_py.
  simpl. rewrite Hnd in *.
  destruct (up nd) as [j|]; [simpl|discriminate].
  destruct (nodes (tree self) !! j) as [parent|]; [simpl|discriminate].
  destruct (vectors parent) as [from_states|]; [simpl|discriminate].
  destruct (vectors nd) as [to_states|]; [simpl|discriminate].
  injection Hterm as <-. reflexivity.
Qed.

Lemma formularize_loop (self : PhyloShape) lf :
  forall ids e,
    Forall (branch_ready (model self) (tree self) lf) ids ->
    exists terms,
      mapM (branch_term (model self) (tree self) lf)
           (List.filter (non_root (tree self)) ids) = Some terms /\
      for_each ids (formularize_step lf) (set_loglike_form e self)
      = (Ok tt, set_loglike_form (fold_left Add terms e) self).
Proof.
  induction ids as [|i ids IH]; intros e Hready.
  - exists []. split; reflexivity.
  - inversion Hready as [|? ? (nd & Hnd & Hbranch) Hrest]; subst.
    simpl. unfold bind. unfold non_root at 1. rewrite Hnd.
    destruct (is_root nd) eqn:Hroot; simpl.
    + rewrite (formularize_step_root self lf i nd e Hnd Hroot).
      apply IH. exact Hrest.
    + destruct (Hbranch eq_refl) as [term Hterm].
      rewrite (formularize_step_branch self lf i nd term e Hnd Hterm).
      destruct (IH (Add e term) Hrest) as (terms & Hterms & Hrun).
      exists (term :: terms). split; [|exact Hrun].
      rewrite Hterm. simpl. rewrite Hterms. reflexivity.
Qed.

Lemma eval_fold_left_Add lg pi env terms :
  forall e,
    (eval lg pi env (fold_left Add terms e)
     == eval lg pi env e + Qsum (map (eval lg pi env) terms))%Q.
Proof.
  induction terms as [|t terms IH]; intros e; simpl.
  - rewrite Qplus_0_r. reflexivity.
  - rewrite IH. simpl. rewrite Qplus_assoc. reflexivity.
Qed.

(** C10. [formularize_log_like] sets the formula to the running sum, from 0
    and in the order of [traverse], of the branch terms of the nodes that are
    not the root: the term of a node is the model's [form_log_like] at the
    node's branch length, its parent's vector and its own vector.  The value
    of the formula is the sum of the values of these terms; the tree is not
    changed. *)
Theorem loglike_form_is_sum_of_branch_terms :
  forall (self : PhyloShape) (log_func : Expr -> Expr),
    Forall (branch_ready (model self) (tree self) log_func) (traverse (tree self)) ->
    ancestors_have_symbols (tree self) ->
    exists terms s',
      mapM (branch_term (model self) (tree self) log_func)
           (List.filter (non_root (tree self)) (traverse (tree self))) = Some terms /\
      formularize_log_like log_func self = (Ok tt, s') /\
      loglike_form s' = running_sum terms /\
      tree s' = tree self /\
      forall lg pi env,
        (eval lg pi env (loglike_form s') == Qsum (map (eval lg pi env) terms))%Q.
Proof.
  intros self lf Hready Hsyms.
  destruct (formularize_loop self lf (traverse (tree self)) (Num 0) Hready)
    as (terms & Hterms & Hrun).
  exists terms. eexists. split; [exact Hterms|].
  unfold formularize_log_like.
  unfold bind at 1, modify at 1. unfold bind at 1, get at 1.
  unfold bind at 1. simpl. rewrite Hrun.
  rewrite (update_variables_outcome (set_loglike_form (fold_left Add terms (Num 0)) self))
    by exact Hsyms.
  split; [reflexivity|]. simpl. split; [reflexivity|]. split; [reflexivity|].
  intros lg pi env. rewrite eval_fold_left_Add. simpl. apply Qplus_0_l.
Qed.

End FormulaBuilder.

(** ** The result unpacker *)

Section Unpacker.

Context {ext : Externals}.

Lemma slice_at_chunk {A : Type} (pre chunk rest : list A) :
  slice (pre ++ chunk ++ rest) (length pre) (length pre + length chunk) = chunk.
Proof.
  unfold slice.
  replace (length pre + length chunk - length pre) with (length chunk) by lia.
  rewrite drop_app_length, take_app_length. reflexivity.
Qed.

Lemma slice_prefix {A : Type} (pre rest : list A) :
  slice (pre ++ rest) 0 (length pre) = pre.
Proof.
  unfold slice. rewrite Nat.sub_0_r. simpl. apply take_app_length.
Qed.

Lemma map_flat_map {A B C : Type} (f : B -> C) (g : A -> list B) (l : list A) :
  map f (flat_map g l) = flat_map (fun a => map f (g a)) l.
Proof.
  induction l as [|a l IH]; simpl; [reflexivity|].
  rewrite map_app, IH. reflexivity.
Qed.

Lemma np_prod_nonempty (sh : list nat) :
  sh <> [] -> np_prod sh = NpInt (size_of sh).
Proof. destruct sh; [congruence | reflexivity]. Qed.

Lemma reshape_exact (values : list Expr) (sh : list nat) :
  length values = size_of sh -> reshape values sh = Ok (mk_ndarray sh values).
Proof. intros H. unfold reshape. rewrite H, Nat.eqb_refl. reflexivity. Qed.

(** The loop of [__summarize_ml_result] on a vector that is laid out as the
    values consumed so far followed by one chunk per remaining node. *)
Lemma summarize_loop_chunks (self : PhyloShape) (sh : list nat) (chunk : nat -> list Q) :
  forall n a consumed T,
    (forall j, a <= j < a + n -> length (chunk j) = size_of sh) ->
    (forall j, a <= j < a + n -> j < length (nodes T)) ->
    exists T' go_p,
      summarize_loop (seq a n) (consumed ++ flat_map chunk (seq a n)) sh
        (NpInt (size_of sh)) (length consumed) (set_tree T self)
      = (Ok go_p, set_tree T' self) /\
      (forall i, a <= i < a + n ->
         nodes T' !! i
         = with_vectors (mk_ndarray sh (map Num (chunk i))) <$> nodes T !! i) /\
      (forall i, ~ a <= i < a + n -> nodes T' !! i = nodes T !! i).
Proof.
  induction n as [|n IH]; intros a consumed T Hlen Hbound.
  - exists T, (length consumed). split; [reflexivity|].
    split; [intros; lia | reflexivity].
  - assert (Ha : length (chunk a) = size_of sh) by (apply Hlen; lia).
    destruct (lookup_lt_is_Some_2 (nodes T) a (Hbound a ltac:(lia))) as [nd Hnd].
    set (T1 := update_node a (with_vectors (mk_ndarray sh (map Num (chunk a)))) T).
    destruct (IH (S a) (consumed ++ chunk a) T1) as (T' & go_p & Hrun & Hin & Hout).
    { intros j Hj. apply Hlen. lia. }
    { intros j Hj. unfold T1. simpl. rewrite length_alter. apply Hbound. lia. }
    exists T', go_p. split; [|split].
    + cbn [seq flat_map summarize_loop]. unfold_py. cbn [as_index].
      rewrite <- Ha at 1. rewrite slice_at_chunk.
      rewrite reshape_exact by (rewrite length_map; exact Ha).
      unfold_py. cbn [tree set_tree]. rewrite Hnd.
      rewrite length_app, <- app_assoc, Ha in Hrun. exact Hrun.
    + intros i Hi. destruct (decide (i = a)) as [->|Hne].
      * rewrite Hout by lia. unfold T1. simpl. apply list_lookup_alter_eq.
      * rewrite Hin by lia. unfold T1. simpl.
        rewrite list_lookup_alter_ne by auto. reflexivity.
    + intros i Hi. rewrite Hout by lia. unfold T1. simpl.
      apply list_lookup_alter_ne. lia.
Qed.

Lemma symbolise_node_outcome (sh : list nat) (i : nat) (s : PhyloShape) (nd : Node) :
  sh <> [] ->
  nodes (tree s) !! i = Some nd ->
  symbolise_node sh i s
  = (Ok tt, set_tree (update_node i (with_vectors_and_symbols (fresh_symbols sh i))
                        (tree s)) s).
Proof.
  intros Hsh Hnd. unfold symbolise_node. unfold_py.
  rewrite Hnd, (np_prod_nonempty sh Hsh). cbn [as_index].
  rewrite reshape_exact by (unfold range; rewrite length_map, length_seq; lia).
  unfold_py. rewrite Hnd. reflexivity.
Qed.

(** The loop of [sym_ancestral_vectors]: the nodes of the range get their
    fresh symbols, as vector and as symbol array; the others are kept. *)
Lemma symbolise_loop (sh : list nat) :
  sh <> [] ->
  forall n a s,
    (forall j, a <= j < a + n -> j < length (nodes (tree s))) ->
    exists s',
      for_each (seq a n) (symbolise_node sh) s = (Ok tt, s') /\
      model s' = model s /\
      ntips (tree s') = ntips (tree s) /\
      length (nodes (tree s')) = length (nodes (tree s)) /\
      (forall i, a <= i < a + n ->
         nodes (tree s') !! i
         = with_vectors_and_symbols (fresh_symbols sh i) <$> nodes (tree s) !! i) /\
      (forall i, ~ a <= i < a + n -> nodes (tree s') !! i = nodes (tree s) !! i).
Proof.
  intros Hsh. induction n as [|n IH]; intros a s Hbound.
  - exists s. split; [reflexivity|]. repeat split; intros; lia.
  - destruct (lookup_lt_is_Some_2 (nodes (tree s)) a (Hbound a ltac:(lia))) as [nd Hnd].
    set (s1 := set_tree (update_node a (with_vectors_and_symbols (fresh_symbols sh a))
                           (tree s)) s).
    destruct (IH (S a) s1) as (s' & Hrun & Hmodel & Htips & Hlen & Hin & Hout).
    { intros j Hj. unfold s1. cbn [tree set_tree update_node nodes].
      rewrite length_alter. apply Hbound. lia. }
    exists s'. cbn [seq for_each]. unfold bind.
    rewrite (symbolise_node_outcome sh a s nd Hsh Hnd). fold s1.
    split; [exact Hrun|]. split; [exact Hmodel|]. split; [exact Htips|].
    split; [rewrite Hlen; unfold s1; cbn [tree set_tree update_node nodes];
            apply length_alter|].
    split.
    + intros i Hi. destruct (decide (i = a)) as [->|Hne].
      * rewrite Hout by lia. unfold s1. cbn [tree set_tree update_node nodes].
        apply list_lookup_alter_eq.
      * rewrite Hin by lia. unfold s1. cbn [tree set_tree update_node nodes].
        rewrite list_lookup_alter_ne by auto. reflexivity.
    + intros i Hi. rewrite Hout by lia. unfold s1.
      cbn [tree set_tree update_node nodes]. apply list_lookup_alter_ne. lia.
Qed.

(** [sym_ancestral_vectors] prepares the packing: when node 0 has a vector of
    a shape that is not [()], it succeeds, every ancestral node gets an array
    of fresh symbols of that shape, and node 0 still has a vector of that
    shape. *)
Lemma sym_ancestral_vectors_outcome (self : PhyloShape) (nd0 : Node) (v0 : ndarray) :
  nodes (tree self) !! 0 = Some nd0 ->
  vectors nd0 = Some v0 ->
  shape v0 <> [] ->
  exists s',
    sym_ancestral_vectors self = (Ok tt, s') /\
    model s' = model self /\
    ntips (tree s') = ntips (tree self) /\
    nnodes (tree s') = nnodes (tree self) /\
    (exists nd0' v0', nodes (tree s') !! 0 = Some nd0' /\ vectors nd0' = Some v0' /\
                      shape v0' = shape v0) /\
    (forall i, ntips (tree self) <= i < nnodes (tree self) ->
       exists nd, nodes (tree s') !! i = Some nd /\
                  vectors_symbols nd = Some (fresh_symbols (shape v0) i) /\
                  vectors nd = Some (fresh_symbols (shape v0) i) /\
                  length (data (fresh_symbols (shape v0) i)) = size_of (shape v0)).
Proof.
  intros Hnd0 Hv0 Hsh.
  destruct (symbolise_loop (shape v0) Hsh
              (nnodes (tree self) - ntips (tree self)) (ntips (tree self)) self)
    as (s' & Hrun & Hmodel & Htips & Hlen & Hin & Hout).
  { unfold nnodes. intros j Hj. lia. }
  exists s'. split; [|split; [exact Hmodel|split; [exact Htips|split; [exact Hlen|split]]]].
  - unfold sym_ancestral_vectors, shared_vectors_shape. unfold_py.
    rewrite Hnd0, Hv0. cbn [shape]. exact Hrun.
  - destruct (decide (ntips (tree self) <= 0 < ntips (tree self)
                      + (nnodes (tree self) - ntips (tree self)))) as [Hanc|Htip].
    + exists (with_vectors_and_symbols (fresh_symbols (shape v0) 0) nd0),
        (fresh_symbols (shape v0) 0).
      rewrite (Hin 0 Hanc), Hnd0. repeat split.
    + exists nd0, v0. rewrite (Hout 0 Htip). repeat split; assumption.
  - intros i Hi.
    destruct (lookup_lt_is_Some_2 (nodes (tree self)) i ltac:(unfold nnodes in Hi; lia))
      as [nd Hnd].
    exists (with_vectors_and_symbols (fresh_symbols (shape v0) i) nd).
    rewrite Hin by lia. rewrite Hnd. repeat split.
    unfold fresh_symbols, range. cbn [data]. rewrite length_map, length_seq. lia.
Qed.

(** C4. The free variables are the model's parameters followed by the
    flattened symbols of the ancestral nodes by increasing index; and
    unpacking a vector laid out in this order (the value [val e] at the place
    of the variable [e]) returns the values of the model's parameters and
    gives every ancestral node, as an array of the shared shape, the values
    of its own symbols; the tips are left as they were. *)
Theorem unpacking_inverts_packing :
  forall (self : PhyloShape) (nd0 : Node) (v0 : ndarray) (val : Expr -> Q),
    nodes (tree self) !! 0 = Some nd0 ->
    vectors nd0 = Some v0 ->
    shape v0 <> [] ->
    (forall i, ntips (tree self) <= i < nnodes (tree self) ->
       exists nd a, nodes (tree self) !! i = Some nd /\ vectors_symbols nd = Some a /\
                    length (data a) = size_of (shape v0)) ->
    exists s1,
      update_variables self = (Ok tt, s1) /\
      variables s1 = packing self /\
      tree s1 = tree self /\
      forall res : OptimizeResult,
        x res = map val (variables s1) ->
        exists s2,
          summarize_ml_result (set_result (Some res) s1)
          = (Ok (map val (get_parameters (model self))), s2) /\
          (forall i nd, ntips (tree self) <= i < nnodes (tree self) ->
             nodes (tree self) !! i = Some nd ->
             nodes (tree s2) !! i
             = Some (with_vectors
                       (mk_ndarray (shape v0)
                          (map (fun e => Num (val e)) (node_symbols (tree self) i)))
                       nd)) /\
          (forall i, i < ntips (tree self) ->
             nodes (tree s2) !! i = nodes (tree self) !! i).
Proof.
  intros self nd0 v0 val Hnd0 Hv0 Hsh Hsyms.
  exists (set_variables (packing self) self).
  split; [|split; [reflexivity|split; [reflexivity|]]].
  { apply update_variables_outcome. intros i Hi.
    destruct (Hsyms i Hi) as (nd & a & Hnd & Ha & _). eauto. }
  intros res Hx. cbn [variables set_variables] in Hx.
  set (chunk := fun i => map val (node_symbols (tree self) i)).
  destruct (summarize_loop_chunks
              (set_result (Some res) (set_variables (packing self) self))
              (shape v0) chunk
              (nnodes (tree self) - ntips (tree self)) (ntips (tree self))
              (map val (get_parameters (model self))) (tree self))
    as (T' & go_p & Hrun & Hin & Hout).
  { intros j Hj. unfold chunk. rewrite length_map.
    destruct (Hsyms j ltac:(unfold nnodes in *; lia)) as (nd & a & Hnd & Ha & Hlen).
    unfold node_symbols. rewrite Hnd, Ha. exact Hlen. }
  { unfold nnodes. intros j Hj. lia. }
  exists (set_tree T' (set_result (Some res) (set_variables (packing self) self))).
  split; [|split].
  - unfold summarize_ml_result, shared_vectors_shape. unfold_py.
    cbn [result set_result tree model set_variables getattr].
    rewrite Hnd0, Hv0, (np_prod_nonempty _ Hsh).
    unfold range. rewrite Hx. unfold packing, range.
    rewrite map_app. rewrite length_map in Hrun.
    rewrite map_flat_map. unfold chunk, packing, range in Hrun.
    match goal with
    | |- context [summarize_loop ?ids ?xs ?sh ?n ?p ?s] =>
        change (summarize_loop ids xs sh n p s)
          with (summarize_loop ids xs sh n p (set_tree (tree self) s))
    end.
    rewrite Hrun.
    rewrite <- (length_map val (get_parameters (model self))), slice_prefix.
    reflexivity.
  - intros i nd Hi Hnd. cbn [tree set_tree].
    rewrite Hin by lia. rewrite Hnd. unfold chunk. simpl.
    rewrite map_map. reflexivity.
  - intros i Hi. cbn [tree set_tree]. apply Hout. lia.
Qed.

End Unpacker.

(** ** The optimisation driver *)

Section Driver.

Context {ext : Externals}.

(** The bound 200 on the fuel of the loop is enough: more fuel changes
    nothing. *)
Lemma attempt_loop_fuel (self : PhyloShape) :
  forall fuel count_run runs w,
    200 - count_run <= fuel ->
    attempt_loop fuel count_run runs self w
    = attempt_loop (200 - count_run) count_run runs self w.
Proof.
  induction fuel as [|fuel IH]; intros c runs w Hfuel.
  - replace (200 - c) with 0 by lia. reflexivity.
  - destruct (c <? 200) eqn:Hc.
    + apply Nat.ltb_lt in Hc.
      replace (200 - c) with (S (200 - (c + 1))) by lia.
      cbn [attempt_loop]. apply Nat.ltb_lt in Hc. rewrite Hc.
      destruct (attempt self w) as [[r|e] w']; [|reflexivity].
      destruct (success r); [reflexivity|].
      apply IH. apply Nat.ltb_lt in Hc. lia.
    + cbn [attempt_loop]. rewrite Hc.
      apply Nat.ltb_ge in Hc. replace (200 - c) with 0 by lia. reflexivity.
Qed.

Lemma attempt_loop_all_fail (self : PhyloShape) :
  forall fuel count_run runs w,
    count_run + fuel <= 200 ->
    (forall j, j < fuel -> reports_failure (attempt_result j self w)) ->
    attempt_loop fuel count_run runs self w
    = (Ok (count_run + fuel, runs), world_after fuel self w).
Proof.
  induction fuel as [|fuel IH]; intros c runs w Hc Hfail.
  - rewrite Nat.add_0_r. reflexivity.
  - cbn [attempt_loop world_after].
    replace (c <? 200) with true by (symmetry; apply Nat.ltb_lt; lia).
    destruct (Hfail 0 ltac:(lia)) as (r & Hr & Hs).
    unfold attempt_result in Hr. cbn [world_after] in Hr.
    destruct (attempt self w) as [r0 w'] eqn:Hatt. simpl in Hr. subst r0.
    rewrite Hs. cbn [snd].
    rewrite IH; [f_equal; f_equal; f_equal; lia | lia |].
    intros j Hj. specialize (Hfail (S j) ltac:(lia)).
    unfold attempt_result in *. cbn [world_after] in Hfail.
    rewrite Hatt in Hfail. exact Hfail.
Qed.

Lemma attempt_loop_first_success (self : PhyloShape) (r : OptimizeResult) :
  success r = true ->
  forall k fuel count_run runs w,
    k < fuel ->
    count_run + fuel <= 200 ->
    (forall j, j < k -> reports_failure (attempt_result j self w)) ->
    attempt_result k self w = Ok r ->
    attempt_loop fuel count_run runs self w
    = (Ok (count_run + k, runs ++ [r]), world_after (S k) self w).
Proof.
  intros Hsucc. induction k as [|k IH]; intros fuel c runs w Hk Hc Hfail Hr;
    (destruct fuel as [|fuel]; [lia|]);
    cbn [attempt_loop world_after];
    replace (c <? 200) with true by (symmetry; apply Nat.ltb_lt; lia).
  - unfold attempt_result in Hr. cbn [world_after] in Hr.
    destruct (attempt self w) as [r0 w'] eqn:Hatt. simpl in Hr. subst r0.
    rewrite Hsucc, Nat.add_0_r. reflexivity.
  - destruct (Hfail 0 ltac:(lia)) as (r0 & Hr0 & Hs0).
    unfold attempt_result in Hr0, Hr. cbn [world_after] in Hr0, Hr.
    destruct (attempt self w) as [r1 w'] eqn:Hatt. simpl in Hr0. subst r1.
    rewrite Hs0. cbn [snd] in *.
    rewrite (IH fuel (c + 1) runs w'); [f_equal; f_equal; f_equal; lia | lia | lia | | exact Hr].
    intros j Hj. specialize (Hfail (S j) ltac:(lia)).
    unfold attempt_result in *. cbn [world_after] in Hfail.
    rewrite Hatt in Hfail. exact Hfail.
Qed.

Lemma summarize_loop_keeps_result :
  forall ids xs sh n go_p (s : PhyloShape),
    result (snd (summarize_loop ids xs sh n go_p s)) = result s.
Proof.
  induction ids as [|i ids IH]; intros xs sh n go_p s; [reflexivity|].
  cbn [summarize_loop]. unfold_py.
  destruct n as [m|]; [|reflexivity]. cbn [as_index].
  destruct (reshape _ sh) as [a|e]; [|reflexivity]. unfold_py.
  destruct (nodes (tree s) !! i) as [nd|]; [|reflexivity].
  rewrite IH. reflexivity.
Qed.

Lemma keep_result_result (r : OptimizeResult) (s : PhyloShape) :
  result (snd (keep_result r s)) = Some r.
Proof.
  unfold keep_result, summarize_ml_result, shared_vectors_shape. unfold_py.
  cbn [result set_result tree].
  destruct (nodes (tree s) !! 0) as [nd0|]; [|reflexivity].
  destruct (vectors nd0) as [v0|]; [|reflexivity].
  match goal with
  | |- context [summarize_loop ?ids ?xs ?sh ?n ?p ?st] =>
      pose proof (summarize_loop_keeps_result ids xs sh n p st) as Hkeep;
      destruct (summarize_loop ids xs sh n p st) as [[go_p|e] s']
  end; exact Hkeep.
Qed.

(** C5. When each of the 200 attempts reports non-success,
    [minimize_negloglike] raises "optimization failed!" after exactly 200
    attempts and leaves the object, its tree included, as it was. *)
Theorem exhausted_attempts_are_fatal :
  forall (num_proc : Z) (self : PhyloShape) (w : World),
    (forall k, k < 200 -> reports_failure (attempt_result k self w)) ->
    minimize_negloglike num_proc (self, w)
    = (Raise (PyException "optimization failed!"), (self, world_after 200 self w)).
Proof.
  intros num_proc self w Hfail. unfold minimize_negloglike.
  rewrite (attempt_loop_all_fail self 200 0 [] w); [reflexivity | lia | exact Hfail].
Qed.

(** C6. When the attempt of index [k] is the first to report success, the
    loop ends with [count_run = k] and [success_runs] holding that result
    alone, the outside world is the one after [k + 1] attempts, and
    [minimize_negloglike] stores and unpacks that result, whatever its
    objective value. *)
Theorem first_success_wins :
  forall (num_proc : Z) (self : PhyloShape) (w : World) (k : nat) (r : OptimizeResult),
    k < 200 ->
    (forall j, j < k -> reports_failure (attempt_result j self w)) ->
    attempt_result k self w = Ok r ->
    success r = true ->
    attempt_loop 200 0 [] self w = (Ok (k, [r]), world_after (S k) self w) /\
    minimize_negloglike num_proc (self, w)
    = on_self (keep_result r) (self, world_after (S k) self w) /\
    snd (snd (minimize_negloglike num_proc (self, w))) = world_after (S k) self w /\
    result (fst (snd (minimize_negloglike num_proc (self, w)))) = Some r.
Proof.
  intros num_proc self w k r Hk Hfail Hr Hsucc.
  pose proof (attempt_loop_first_success self r Hsucc k 200 0 [] w Hk
                ltac:(lia) Hfail Hr) as Hloop.
  cbn [app Nat.add] in Hloop. split; [exact Hloop|].
  assert (Hmin : minimize_negloglike num_proc (self, w)
                 = on_self (keep_result r) (self, world_after (S k) self w)).
  { unfold minimize_negloglike. rewrite Hloop. reflexivity. }
  split; [exact Hmin|]. rewrite Hmin. unfold on_self. cbn [fst snd].
  pose proof (keep_result_result r self) as Hres.
  destruct (keep_result r self) as [out s']. split; [reflexivity | exact Hres].
Qed.

End Driver.

(** ** The initial guess *)

(** *** Rounding to binary64 is monotone *)

Section Binary64.
#[local] Open Scope Q_scope.

Lemma Qpower2_pos (k : Z) : 0 < 2 ^ k.
Proof. apply Qpower_0_lt. reflexivity. Qed.

Lemma Qpower2_add (a b : Z) : 2 ^ (a + b) == 2 ^ a * 2 ^ b.
Proof. apply Qpower_plus. discriminate. Qed.

Lemma Qdiv_bounds (p d a a' b b' x lo hi : Q) :
  0 < a -> 0 < b -> a <= p -> p < a' -> b <= d -> d < b' ->
  x * d == p -> lo * b' == a -> hi * b == a' ->
  lo <= x /\ x < hi.
Proof.
  intros Ha Hb Hap Hpa Hbd Hdb Hx Hlo Hhi.
  assert (Hxpos : 0 < x) by nra.
  split; nra.
Qed.

Lemma log2_bounds (p : positive) :
  2 ^ Z.log2 (Z.pos p) <= inject_Z (Z.pos p) /\
  inject_Z (Z.pos p) < 2 ^ (Z.log2 (Z.pos p) + 1).
Proof.
  destruct (Z.log2_spec (Z.pos p)) as [Hlo Hhi]; [lia|].
  pose proof (Z.log2_nonneg (Z.pos p)) as Hnn.
  change 2 with (inject_Z 2).
  rewrite <- !Zpower_Qpower by lia.
  rewrite <- Zle_Qle, <- Zlt_Qlt. split; [exact Hlo|].
  replace (Z.log2 (Z.pos p) + 1)%Z with (Z.succ (Z.log2 (Z.pos p))) by lia.
  exact Hhi.
Qed.

Lemma quotient_log2_bounds (n d : positive) :
  2 ^ (Z.log2 (Z.pos n) - Z.log2 (Z.pos d) - 1) <= Z.pos n # d /\
  Z.pos n # d < 2 ^ (Z.log2 (Z.pos n) - Z.log2 (Z.pos d) + 1).
Proof.
  destruct (log2_bounds n) as [Hn Hn'], (log2_bounds d) as [Hd Hd'].
  apply (Qdiv_bounds (inject_Z (Z.pos n)) (inject_Z (Z.pos d))
           (2 ^ Z.log2 (Z.pos n)) (2 ^ (Z.log2 (Z.pos n) + 1))
           (2 ^ Z.log2 (Z.pos d)) (2 ^ (Z.log2 (Z.pos d) + 1)));
    try assumption; try apply Qpower2_pos.
  - rewrite (Qmake_Qdiv (Z.pos n) d). field. discriminate.
  - rewrite <- Qpower2_add. apply Qpower_comp; [reflexivity|lia].
  - rewrite <- Qpower2_add. apply Qpower_comp; [reflexivity|lia].
Qed.

Lemma floor_log2_spec (n d : positive) :
  2 ^ floor_log2 n d <= Z.pos n # d /\ Z.pos n # d < 2 ^ (floor_log2 n d + 1).
Proof.
  destruct (quotient_log2_bounds n d) as [Hlo Hhi].
  unfold floor_log2.
  destruct (Qle_bool _ _) eqn:E.
  - apply Qle_bool_iff in E. split; assumption.
  - split; [exact Hlo|].
    apply Qnot_le_lt. intros H. apply Qle_bool_iff in H.
    replace (Z.log2 (Z.pos n) - Z.log2 (Z.pos d) - 1 + 1)%Z
      with (Z.log2 (Z.pos n) - Z.log2 (Z.pos d))%Z in H by lia.
    congruence.
Qed.

Lemma floor_log2_mono (n d n' d' : positive) :
  Z.pos n # d <= Z.pos n' # d' -> (floor_log2 n d <= floor_log2 n' d')%Z.
Proof.
  intros Hle.
  destruct (floor_log2_spec n d) as [Hlo _], (floor_log2_spec n' d') as [_ Hhi].
  assert (H : 2 ^ floor_log2 n d < 2 ^ (floor_log2 n' d' + 1)).
  { eapply Qle_lt_trans; [exact Hlo|]. eapply Qle_lt_trans; [exact Hle|exact Hhi]. }
  apply Qpower_lt_compat_l_inv in H; [lia|reflexivity].
Qed.

Lemma round_half_even_mono (a b : Q) :
  a <= b -> (round_half_even a <= round_half_even b)%Z.
Proof.
  intros Hle. pose proof (Qfloor_resp_le a b Hle) as Hf.
  unfold round_half_even.
  destruct (Z.eq_dec (Qfloor a) (Qfloor b)) as [Heq|Hne].
  - rewrite Heq.
    destruct (Qcompare_spec (a - inject_Z (Qfloor b)) (1 # 2)) as [Ha|Ha|Ha];
      destruct (Qcompare_spec (b - inject_Z (Qfloor b)) (1 # 2)) as [Hb|Hb|Hb];
      try destruct (Z.even (Qfloor b)); try lia; lra.
  - destruct (a - inject_Z (Qfloor a) ?= 1 # 2), (b - inject_Z (Qfloor b) ?= 1 # 2);
      try destruct (Z.even (Qfloor a)); try destruct (Z.even (Qfloor b)); lia.
Qed.

Lemma round_half_even_Z (z : Z) : round_half_even (inject_Z z) = z.
Proof.
  unfold round_half_even. rewrite Qfloor_Z.
  destruct (Qcompare_spec (inject_Z z - inject_Z z) (1 # 2)) as [H|H|H];
    [lra|reflexivity|lra].
Qed.

Lemma fl_pos_mono (n d n' d' : positive) :
  Z.pos n # d <= Z.pos n' # d' -> fl_pos n d <= fl_pos n' d'.
Proof.
  intros Hle. pose proof (floor_log2_mono n d n' d' Hle) as He.
  destruct (floor_log2_spec n d) as [_ Ha], (floor_log2_spec n' d') as [Hb _].
  unfold fl_pos.
  set (ea := Z.max (floor_log2 n d) (-1022)).
  set (eb := Z.max (floor_log2 n' d') (-1022)).
  destruct (Z.eq_dec ea eb) as [Heq|Hne].
  - rewrite <- Heq.
    apply Qmult_le_compat_r; [|apply Qlt_le_weak, Qpower2_pos].
    rewrite <- Zle_Qle. apply round_half_even_mono.
    apply Qmult_le_compat_r; [exact Hle|apply Qlt_le_weak, Qpower2_pos].
  - assert (Hlt : (ea + 1 <= eb)%Z) by lia.
    assert (Heb : eb = floor_log2 n' d') by lia.
    apply Qle_trans with (2 ^ (ea + 1)); [|apply Qle_trans with (2 ^ eb)].
    + assert (Hm : (round_half_even ((Z.pos n # d) * 2 ^ (52 - ea)) <= 2 ^ 53)%Z).
      { rewrite <- (round_half_even_Z (2 ^ 53)).
        apply round_half_even_mono.
        assert (Hp : 2 ^ (ea + 1) * 2 ^ (52 - ea) == inject_Z (2 ^ 53)).
        { rewrite <- Qpower2_add.
          replace (ea + 1 + (52 - ea))%Z with 53%Z by lia. reflexivity. }
        rewrite <- Hp.
        apply Qmult_le_compat_r; [|apply Qlt_le_weak, Qpower2_pos].
        apply Qlt_le_weak. eapply Qlt_le_trans; [exact Ha|].
        apply Qpower_le_compat_l; [lia|discriminate]. }
      assert (Hp : 2 ^ (ea + 1) == inject_Z (2 ^ 53) * 2 ^ (ea - 52)).
      { change (inject_Z (2 ^ 53)) with (inject_Z 9007199254740992).
        assert (H53 : inject_Z 9007199254740992 == 2 ^ 53) by reflexivity.
        rewrite H53, <- Qpower2_add. apply Qpower_comp; [reflexivity|lia]. }
      rewrite Hp.
      apply Qmult_le_compat_r; [|apply Qlt_le_weak, Qpower2_pos].
      rewrite <- Zle_Qle. exact Hm.
    + apply Qpower_le_compat_l; [lia|discriminate].
    + assert (Hm : (2 ^ 52 <= round_half_even ((Z.pos n' # d') * 2 ^ (52 - eb)))%Z).
      { rewrite <- (round_half_even_Z (2 ^ 52)) at 1.
        apply round_half_even_mono.
        assert (Hp : 2 ^ eb * 2 ^ (52 - eb) == inject_Z (2 ^ 52)).
        { rewrite <- Qpower2_add.
          replace (eb + (52 - eb))%Z with 52%Z by lia. reflexivity. }
        rewrite <- Hp.
        apply Qmult_le_compat_r; [|apply Qlt_le_weak, Qpower2_pos].
        rewrite Heb. exact Hb. }
      assert (Hp : 2 ^ eb == inject_Z (2 ^ 52) * 2 ^ (eb - 52)).
      { change (inject_Z (2 ^ 52)) with (inject_Z 4503599627370496).
        assert (H52 : inject_Z 4503599627370496 == 2 ^ 52) by reflexivity.
        rewrite H52, <- Qpower2_add. apply Qpower_comp; [reflexivity|lia]. }
      rewrite Hp.
      apply Qmult_le_compat_r; [|apply Qlt_le_weak, Qpower2_pos].
      rewrite <- Zle_Qle. exact Hm.
Qed.

Lemma fl_pos_nonneg (n d : positive) : 0 <= fl_pos n d.
Proof.
  unfold fl_pos. apply Qmult_le_0_compat; [|apply Qlt_le_weak, Qpower2_pos].
  change 0 with (inject_Z 0). rewrite <- Zle_Qle.
  rewrite <- (round_half_even_Z 0) at 1. apply round_half_even_mono.
  apply Qmult_le_0_compat; [discriminate|apply Qlt_le_weak, Qpower2_pos].
Qed.

(** Rounding to binary64 is monotone. *)
Lemma fl_mono (a b : Q) : a <= b -> fl a <= fl b.
Proof.
  destruct a as [[|n|n] d], b as [[|n'|n'] d']; unfold fl; cbn [Qnum Qden];
    intros Hle;
    try (exfalso; revert Hle; unfold Qle; cbn [Qnum Qden]; lia).
  - apply Qle_refl.
  - apply fl_pos_nonneg.
  - apply fl_pos_mono. exact Hle.
  - pose proof (fl_pos_nonneg n d). lra.
  - pose proof (fl_pos_nonneg n d). pose proof (fl_pos_nonneg n' d'). lra.
  - apply Qopp_le_compat. apply fl_pos_mono.
    revert Hle. unfold Qle. cbn [Qnum Qden]. lia.
Qed.

Lemma perturb_antitone (u v : Q) : u <= v -> perturb v <= perturb u.
Proof.
  intros Hle. unfold perturb. apply fl_mono.
  assert (H : fl (fl (u - (1 # 2)) * fl (1 # 100))
              <= fl (fl (v - (1 # 2)) * fl (1 # 100))).
  { apply fl_mono. apply Qmult_le_compat_r; [|vm_compute; discriminate].
    apply fl_mono. lra. }
  lra.
Qed.
End Binary64.

(** The perturbed values of the binary64 draws lie between the values at
    the largest draw and at the least one. *)
Lemma perturb_near_one (u : Q) : unit_double u -> near_one_binary64 (perturb u).
Proof.
  intros [Hlo Hhi]. split.
  - apply Qle_trans with (perturb (1 - 2 ^ (-53))%Q);
      [vm_compute; discriminate|apply perturb_antitone; exact Hhi].
  - apply Qle_trans with (perturb 0);
      [apply perturb_antitone; exact Hlo|vm_compute; discriminate].
Qed.

(** Both bounds are attained, and the lower one is outside the interval
    within 0.5% of 1. *)
Lemma perturb_bounds_attained :
  (perturb 0 == 1131529406376837 # 1125899906842624)%Q /\
  (perturb (1 - 2 ^ (-53)) == 8962163258467287 # 9007199254740992)%Q /\
  ~ near_one (perturb (1 - 2 ^ (-53))%Q).
Proof.
  split; [vm_compute; reflexivity|]. split; [vm_compute; reflexivity|].
  intros [Hlo _]. revert Hlo. vm_compute. discriminate.
Qed.

Lemma propose_initials_length (len_vt : nat) (initials : list Q) :
  length (propose_initials len_vt initials) = length initials.
Proof.
  unfold propose_initials.
  rewrite length_app, length_map, length_take, length_drop. lia.
Qed.

(** Only the last [len_vt] entries are replaced: the entries before them keep
    the values that were drawn. *)
Lemma propose_initials_split (len_vt : nat) (kept replaced : list Q) :
  0 < len_vt ->
  length replaced = len_vt ->
  propose_initials len_vt (kept ++ replaced) = kept ++ map perturb replaced.
Proof.
  intros Hpos Hlen. unfold propose_initials, tail_start.
  replace (len_vt =? 0) with false by (symmetry; apply Nat.eqb_neq; lia).
  rewrite length_app.
  replace (length kept + length replaced - len_vt) with (length kept) by lia.
  rewrite take_app_length, drop_app_length. reflexivity.
Qed.

Lemma propose_initials_replaced_near_one (len_vt : nat) (kept replaced : list Q) :
  0 < len_vt ->
  length replaced = len_vt ->
  Forall unit_double replaced ->
  propose_initials len_vt (kept ++ replaced) = kept ++ map perturb replaced /\
  Forall near_one_binary64 (map perturb replaced) /\
  (perturb 0 == 1131529406376837 # 1125899906842624)%Q /\
  (perturb (1 - 2 ^ (-53)) == 8962163258467287 # 9007199254740992)%Q.
Proof.
  intros Hpos Hlen Hunit.
  split; [apply propose_initials_split; assumption|].
  split; [|split; apply perturb_bounds_attained].
  clear Hlen. induction Hunit as [|u l Hu _ IH]; simpl; constructor;
    auto using perturb_near_one.
Qed.

(** C1, on a tree with two ancestral nodes.  The free variables are the rate,
    the three symbols of node 3 and the three symbols of node 4, and every
    draw is 1/2.  The length of the replaced block is that of one vector, 3:
    the initial values of node 4 are perturbed to 1, the initial values of
    node 3 keep the drawn 1/2, outside the interval around 1. *)
Theorem initial_guess_with_two_ancestors :
  let self := Examples.compiled Examples.always Toy.three_tips ["a"; "b"; "c"] in
  variables self
  = [Sym "sigma2"; Sym "3_0"; Sym "3_1"; Sym "3_2"; Sym "4_0"; Sym "4_1"; Sym "4_2"] /\
  length (get_parameters (model self)) = 1 /\
  vector_mean_length self = Ok 3 /\
  @np_random (Toy.externals Examples.always) (length (variables self))
    Examples.start
  = (repeat (1 # 2)%Q 7, Toy.mk_world 1 0) /\
  propose_initials 3 (repeat (1 # 2)%Q 7)
  = [1 # 2; 1 # 2; 1 # 2; 1 # 2; perturb (1 # 2); perturb (1 # 2); perturb (1 # 2)]%Q /\
  (exists r, fst (attempt (ext := Toy.externals Examples.always) self Examples.start)
             = Ok r /\
             x r = propose_initials 3 (repeat (1 # 2)%Q 7) /\
             x r !! 1 = Some (1 # 2)%Q) /\
  ~ near_one (1 # 2).
Proof.
  intros self. repeat split; try reflexivity.
  - eexists. split; [vm_compute; reflexivity|]. split; reflexivity.
  - unfold near_one. intros [Hlo _]. revert Hlo. vm_compute. intros H. discriminate H.
Qed.

(** * Further properties of the pipeline *)

(** ** The symbols of the ancestral vectors *)

Lemma string_of_uint_separator :
  forall (d d' : Decimal.uint) (rest rest' : string),
    (NilEmpty.string_of_uint d ++ String "_"%char rest
     = NilEmpty.string_of_uint d' ++ String "_"%char rest')%string ->
    d = d' /\ rest = rest'.
Proof.
  induction d as [|d IH|d IH|d IH|d IH|d IH|d IH|d IH|d IH|d IH|d IH];
    intros d' rest rest' H; destruct d'; simpl in H;
    try discriminate H;
    try (injection H as H; destruct (IH _ _ _ H) as [-> ->]; split; reflexivity).
  injection H as ->. split; reflexivity.
Qed.

Lemma str_injective (n n' : nat) : str n = str n' -> n = n'.
Proof.
  unfold str. intros H.
  assert (Hd : Nat.to_uint n = Nat.to_uint n').
  { pose proof (NilEmpty.usu (Nat.to_uint n)) as H1.
    pose proof (NilEmpty.usu (Nat.to_uint n')) as H2.
    rewrite H in H1. rewrite H1 in H2. injection H2 as H2. exact H2. }
  rewrite <- (DecimalNat.Unsigned.of_to n), <- (DecimalNat.Unsigned.of_to n'), Hd.
  reflexivity.
Qed.

(** X1. The name ["%s_%s" % (node_id, go_v)] determines the node and the
    component: two symbols of [sym_ancestral_vectors] with the same name are
    the same component of the same node. *)
Theorem symbol_name_injective :
  forall node_id go_v node_id' go_v' : nat,
    symbol_name node_id go_v = symbol_name node_id' go_v' ->
    node_id = node_id' /\ go_v = go_v'.
Proof.
  intros i j i' j' H. unfold symbol_name, str in H.
  change ("_" ++ ?s)%string with (String "_"%char s) in H.
  apply string_of_uint_separator in H. destruct H as [Hi Hj].
  split.
  - apply str_injective. unfold str. rewrite Hi. reflexivity.
  - apply str_injective. exact Hj.
Qed.

Lemma symbol_name_injective_witness : 12 = 12 /\ 3 = 3.
Proof. apply (symbol_name_injective 12 3 12 3). reflexivity. Defined.

Lemma fresh_symbols_NoDup (sh : list nat) (i : nat) :
  List.NoDup (data (fresh_symbols sh i)).
Proof.
  unfold fresh_symbols, range. cbn [data].
  generalize (size_of sh - 0). generalize 0. intros a n. revert a.
  induction n as [|n IH]; intros a; simpl; constructor.
  - intros Hin. apply in_map_iff in Hin. destruct Hin as (j & Hj & Hin).
    injection Hj as Hj. apply symbol_name_injective in Hj.
    apply in_seq in Hin. lia.
  - apply IH.
Qed.

Lemma In_fresh_symbols (sh : list nat) (i : nat) (e : Expr) :
  In e (data (fresh_symbols sh i)) -> exists j, e = Sym (symbol_name i j).
Proof.
  unfold fresh_symbols. cbn [data]. intros Hin.
  apply in_map_iff in Hin. destruct Hin as (j & <- & _). eauto.
Qed.

Lemma flat_map_fresh_NoDup (sh : list nat) :
  forall n a,
    List.NoDup (flat_map (fun i => data (fresh_symbols sh i)) (seq a n)).
Proof.
  induction n as [|n IH]; intros a; simpl; [constructor|].
  apply List.NoDup_app; [apply fresh_symbols_NoDup | apply IH |].
  intros e Hin Hin'. apply In_fresh_symbols in Hin. destruct Hin as [j ->].
  apply in_flat_map in Hin'. destruct Hin' as (i & Hi & Hin').
  apply In_fresh_symbols in Hin'. destruct Hin' as [j' Heq].
  injection Heq as Heq. apply symbol_name_injective in Heq.
  apply in_seq in Hi. lia.
Qed.

Lemma flat_map_ext_In {A B : Type} (f g : A -> list B) (l : list A) :
  (forall a, In a l -> f a = g a) -> flat_map f l = flat_map g l.
Proof.
  induction l as [|a l IH]; intros H; simpl; [reflexivity|].
  rewrite (H a (or_introl eq_refl)), IH; [reflexivity|].
  intros b Hb. apply H. right. exact Hb.
Qed.

Section Symbols.

Context {ext : Externals}.

(** X2. When node 0 carries a vector whose shape is not [()],
    [sym_ancestral_vectors] succeeds; every ancestral node gets, both as its
    vector and as its symbol array, the array of that shape holding the
    symbols named after the node and the component; the tips, the number of
    tips and the number of nodes are left as they were. *)
Theorem sym_ancestral_vectors_assigns_fresh_symbols :
  forall (self : PhyloShape) (nd0 : Node) (v0 : ndarray),
    nodes (tree self) !! 0 = Some nd0 ->
    vectors nd0 = Some v0 ->
    shape v0 <> [] ->
    exists s',
      sym_ancestral_vectors self = (Ok tt, s') /\
      ntips (tree s') = ntips (tree self) /\
      nnodes (tree s') = nnodes (tree self) /\
      (forall i, ntips (tree self) <= i < nnodes (tree self) ->
         nodes (tree s') !! i
         = with_vectors_and_symbols (fresh_symbols (shape v0) i) <$> nodes (tree self) !! i) /\
      (forall i, i < ntips (tree self) ->
         nodes (tree s') !! i = nodes (tree self) !! i).
Proof.
  intros self nd0 v0 Hnd0 Hv0 Hsh.
  destruct (symbolise_loop (shape v0) Hsh
              (nnodes (tree self) - ntips (tree self)) (ntips (tree self)) self)
    as (s' & Hrun & _ & Htips & Hlen & Hin & Hout).
  { unfold nnodes. intros j Hj. lia. }
  exists s'. split; [|split; [exact Htips|split; [exact Hlen|split]]].
  - unfold sym_ancestral_vectors, shared_vectors_shape. unfold_py.
    rewrite Hnd0, Hv0. cbn [shape]. exact Hrun.
  - intros i Hi. apply Hin. lia.
  - intros i Hi. apply Hout. lia.
Qed.

(** X3. After [sym_ancestral_vectors] the symbols of the ancestral nodes,
    listed node after node as [__update_variables] lists them, are pairwise
    distinct: no free variable stands for two components. *)
Theorem ancestral_symbols_are_distinct :
  forall (self : PhyloShape) (nd0 : Node) (v0 : ndarray) (s' : PhyloShape),
    nodes (tree self) !! 0 = Some nd0 ->
    vectors nd0 = Some v0 ->
    shape v0 <> [] ->
    sym_ancestral_vectors self = (Ok tt, s') ->
    List.NoDup (flat_map (node_symbols (tree s'))
                  (range (ntips (tree s')) (nnodes (tree s')))).
Proof.
  intros self nd0 v0 s' Hnd0 Hv0 Hsh Hrun.
  destruct (sym_ancestral_vectors_outcome self nd0 v0 Hnd0 Hv0 Hsh)
    as (s1 & Hrun1 & _ & Htips & Hlen & _ & Hsyms).
  rewrite Hrun in Hrun1. injection Hrun1 as <-.
  rewrite Htips, Hlen. unfold range.
  rewrite (flat_map_ext_In (node_symbols (tree s'))
             (fun i => data (fresh_symbols (shape v0) i))).
  - apply flat_map_fresh_NoDup.
  - intros i Hi. apply in_seq in Hi.
    destruct (Hsyms i ltac:(lia)) as (nd & Hnd & Hs & _).
    unfold node_symbols. rewrite Hnd, Hs. reflexivity.
Qed.

End Symbols.

(** ** More on the formula builder *)

Section FormulaBuilderMore.

Context {ext : Externals}.

Lemma flat_map_uniform_length {A B : Type} (f : A -> list B) (m : nat) (l : list A) :
  (forall a, In a l -> length (f a) = m) ->
  length (flat_map f l) = length l * m.
Proof.
  induction l as [|a l IH]; intros H; simpl; [reflexivity|].
  rewrite length_app, (H a (or_introl eq_refl)), IH; [reflexivity|].
  intros b Hb. apply H. right. exact Hb.
Qed.

(** X4. The number of free variables.  When the branches of the traversal
    can be evaluated and every ancestral node has a symbol array of [m]
    entries, [formularize_log_like] leaves a variable list of the model's
    parameters followed by [m] symbols per ancestral node. *)
Theorem formularize_counts_variables :
  forall (self : PhyloShape) (log_func : Expr -> Expr) (m : nat),
    Forall (branch_ready (model self) (tree self) log_func) (traverse (tree self)) ->
    (forall i, ntips (tree self) <= i < nnodes (tree self) ->
       exists nd a, nodes (tree self) !! i = Some nd /\ vectors_symbols nd = Some a /\
                    length (data a) = m) ->
    fst (formularize_log_like log_func self) = Ok tt /\
    variables (snd (formularize_log_like log_func self)) = packing self /\
    length (variables (snd (formularize_log_like log_func self)))
    = length (get_parameters (model self))
      + (nnodes (tree self) - ntips (tree self)) * m.
Proof.
  intros self lf m Hready Hsyms.
  destruct (formularize_loop self lf (traverse (tree self)) (Num 0) Hready)
    as (terms & _ & Hrun).
  assert (Hout : formularize_log_like lf self
                 = (Ok tt, set_variables (packing self)
                             (set_loglike_form (fold_left Add terms (Num 0)) self))).
  { unfold formularize_log_like.
    unfold bind at 1, modify at 1. unfold bind at 1, get at 1.
    unfold bind at 1. simpl. rewrite Hrun.
    apply (update_variables_outcome
             (set_loglike_form (fold_left Add terms (Num 0)) self)).
    intros i Hi. destruct (Hsyms i Hi) as (nd & a & Hnd & Ha & _). eauto. }
  rewrite Hout. cbn [fst snd variables set_variables].
  split; [reflexivity|]. split; [reflexivity|].
  unfold packing. rewrite length_app. f_equal.
  unfold range.
  rewrite (flat_map_uniform_length (node_symbols (tree self)) m).
  - rewrite length_seq. reflexivity.
  - intros i Hi. apply in_seq in Hi.
    destruct (Hsyms i ltac:(unfold nnodes in *; lia)) as (nd & a & Hnd & Ha & Hlen).
    unfold node_symbols. rewrite Hnd, Ha. exact Hlen.
Qed.

(** X5. [formularize_log_like] starts from the formula 0 and an empty
    variable list: run a second time on the object it produced, it produces
    the same object again, neither term nor variable being added twice. *)
Theorem formularize_log_like_idempotent :
  forall (self : PhyloShape) (log_func : Expr -> Expr),
    Forall (branch_ready (model self) (tree self) log_func) (traverse (tree self)) ->
    ancestors_have_symbols (tree self) ->
    exists s1,
      formularize_log_like log_func self = (Ok tt, s1) /\
      formularize_log_like log_func s1 = (Ok tt, s1).
Proof.
  intros self lf Hready Hsyms.
  destruct (formularize_loop self lf (traverse (tree self)) (Num 0) Hready)
    as (terms & Hterms & Hrun).
  set (s1 := set_variables (packing self)
               (set_loglike_form (fold_left Add terms (Num 0)) self)).
  assert (Hfirst : formularize_log_like lf self = (Ok tt, s1)).
  { unfold formularize_log_like.
    unfold bind at 1, modify at 1. unfold bind at 1, get at 1.
    unfold bind at 1. simpl. rewrite Hrun.
    apply (update_variables_outcome
             (set_loglike_form (fold_left Add terms (Num 0)) self)).
    exact Hsyms. }
  exists s1. split; [exact Hfirst|].
  destruct (formularize_loop s1 lf (traverse (tree s1)) (Num 0) Hready)
    as (terms' & Hterms' & Hrun').
  assert (terms' = terms) as ->.
  { change (model s1) with (model self) in Hterms'.
    change (tree s1) with (tree self) in Hterms'.
    rewrite Hterms in Hterms'. injection Hterms' as <-. reflexivity. }
  unfold formularize_log_like.
  unfold bind at 1, modify at 1. unfold bind at 1, get at 1.
  unfold bind at 1. cbn [tree set_loglike_form]. rewrite Hrun'.
  apply (update_variables_outcome
           (set_loglike_form (fold_left Add terms (Num 0)) s1)).
  exact Hsyms.
Qed.

Lemma formularize_step_blocked (self : PhyloShape) lf i e :
  branch_blocked (tree self) i ->
  formularize_step lf i (set_loglike_form e self)
  = (Raise (AttributeError "vectors"), set_loglike_form e self).
Proof.
  intros (nd & j & parent & Hnd & Hup & Hparent & Hmissing).
  unfold formularize_step. unfold_py. cbn [tree set_loglike_form].
  rewrite Hnd, Hup. cbn [tree set_loglike_form]. rewrite Hparent.
  destruct (vectors parent) as [from_states|]; [|reflexivity].
  destruct Hmissing as [Hm|Hm]; [discriminate|]. rewrite Hm. reflexivity.
Qed.

Lemma formularize_step_wired (self : PhyloShape) lf i e :
  branch_wired (tree self) i ->
  (exists e', formularize_step lf i (set_loglike_form e self)
              = (Ok tt, set_loglike_form e' self)) \/
  formularize_step lf i (set_loglike_form e self)
  = (Raise (AttributeError "vectors"), set_loglike_form e self).
Proof.
  intros (nd & Hnd & Hparent).
  unfold formularize_step. unfold_py. cbn [tree set_loglike_form].
  rewrite Hnd. destruct (up nd) as [j|]; [|left; eauto].
  cbn [tree set_loglike_form].
  destruct (Hparent j eq_refl) as [parent ->].
  destruct (vectors parent) as [from_states|]; [|right; reflexivity].
  destruct (vectors nd) as [to_states|]; [|right; reflexivity].
  left. eauto.
Qed.

Lemma formularize_loop_blocked (self : PhyloShape) lf :
  forall ids e,
    Forall (branch_wired (tree self)) ids ->
    Exists (branch_blocked (tree self)) ids ->
    exists e',
      for_each ids (formularize_step lf) (set_loglike_form e self)
      = (Raise (AttributeError "vectors"), set_loglike_form e' self).
Proof.
  induction ids as [|i ids IH]; intros e Hwired Hblocked.
  - inversion Hblocked.
  - inversion Hwired as [|? ? Hi Hrest]; subst.
    cbn [for_each]. unfold bind.
    destruct (formularize_step_wired self lf i e Hi) as [[e' Hok]|Hraise].
    + rewrite Hok. inversion Hblocked as [? ? Hb|? ? Hb]; subst.
      * rewrite (formularize_step_blocked self lf i e Hb) in Hok. discriminate.
      * apply IH; assumption.
    + rewrite Hraise. eauto.
Qed.

(** X6. When some node of the traversal, not the root, has no vector or a
    parent without a vector (the tree being otherwise well formed),
    [formularize_log_like] raises [AttributeError]; it stops inside the
    traversal, so the variable list is not rebuilt and the tree is not
    touched. *)
Theorem formularize_needs_vectors :
  forall (self : PhyloShape) (log_func : Expr -> Expr),
    Forall (branch_wired (tree self)) (traverse (tree self)) ->
    Exists (branch_blocked (tree self)) (traverse (tree self)) ->
    fst (formularize_log_like log_func self) = Raise (AttributeError "vectors") /\
    variables (snd (formularize_log_like log_func self)) = variables self /\
    tree (snd (formularize_log_like log_func self)) = tree self /\
    negloglike_func_s (snd (formularize_log_like log_func self))
    = negloglike_func_s self.
Proof.
  intros self log_func Hwired Hblocked.
  destruct (formularize_loop_blocked self log_func (traverse (tree self)) (Num 0)
              Hwired Hblocked) as (e' & Hrun).
  assert (Hout : formularize_log_like log_func self
                 = (Raise (AttributeError "vectors"), set_loglike_form e' self)).
  { unfold formularize_log_like.
    unfold bind at 1, modify at 1. unfold bind at 1, get at 1.
    unfold bind at 1. cbn [tree set_loglike_form]. rewrite Hrun. reflexivity. }
  rewrite Hout. repeat split.
Qed.

End FormulaBuilderMore.

(** ** More on the result unpacker and the optimisation driver *)

Section UnpackerMore.

Context {ext : Externals}.

Lemma only_ancestral_vectors_differ_refl (s : PhyloShape) :
  only_ancestral_vectors_differ s s.
Proof.
  split; [reflexivity|]. split; [reflexivity|]. split; [reflexivity|].
  split; [reflexivity|].
  intros i nd nd' H H'. rewrite H in H'. injection H' as <-.
  split; [repeat split | reflexivity].
Qed.

Lemma only_ancestral_vectors_differ_trans (s1 s2 s3 : PhyloShape) :
  only_ancestral_vectors_differ s1 s2 ->
  only_ancestral_vectors_differ s2 s3 ->
  only_ancestral_vectors_differ s1 s3.
Proof.
  intros (Ho1 & Ht1 & Hr1 & Hl1 & Hn1) (Ho2 & Ht2 & Hr2 & Hl2 & Hn2).
  split; [congruence|]. split; [congruence|]. split; [congruence|].
  split; [congruence|].
  intros i nd nd' H H'.
  destruct (lookup_lt_is_Some_2 (nodes (tree s2)) i) as [nd2 H2].
  { rewrite Hl1. apply lookup_lt_is_Some_1. eauto. }
  destruct (Hn1 i nd nd2 H H2) as ((A1 & A2 & A3 & A4 & A5) & Ha).
  destruct (Hn2 i nd2 nd' H2 H') as ((B1 & B2 & B3 & B4 & B5) & Hb).
  split.
  - repeat split; congruence.
  - intros Hi. rewrite Hb by lia. apply Ha. exact Hi.
Qed.

Lemma only_ancestral_vectors_differ_set (s : PhyloShape) (i : nat) (a : ndarray) :
  ntips (tree s) <= i ->
  only_ancestral_vectors_differ s
    (set_tree (update_node i (with_vectors a) (tree s)) s).
Proof.
  intros Hi. split; [reflexivity|]. split; [reflexivity|]. split; [reflexivity|].
  split; [cbn [tree set_tree update_node nodes]; apply length_alter|].
  intros j nd nd' H H'. cbn [tree set_tree update_node nodes] in H'.
  destruct (decide (i = j)) as [->|Hne].
  - rewrite list_lookup_alter_eq, H in H'. injection H' as <-.
    split; [repeat split | lia].
  - rewrite list_lookup_alter_ne, H in H' by exact Hne. injection H' as <-.
    split; [repeat split | reflexivity].
Qed.

Lemma summarize_loop_frame :
  forall ids xs sh n go_p (s : PhyloShape),
    (forall i, In i ids -> ntips (tree s) <= i) ->
    only_ancestral_vectors_differ s (snd (summarize_loop ids xs sh n go_p s)).
Proof.
  induction ids as [|i ids IH]; intros xs sh n go_p s Hids;
    [apply only_ancestral_vectors_differ_refl|].
  cbn [summarize_loop]. unfold_py.
  destruct n as [m|]; [|apply only_ancestral_vectors_differ_refl]. cbn [as_index].
  destruct (reshape _ sh) as [a|e]; [|apply only_ancestral_vectors_differ_refl].
  unfold_py.
  destruct (nodes (tree s) !! i) as [nd|]; [|apply only_ancestral_vectors_differ_refl].
  eapply only_ancestral_vectors_differ_trans.
  - apply (only_ancestral_vectors_differ_set s i a). apply Hids. left. reflexivity.
  - apply IH. intros j Hj. cbn [tree set_tree update_node ntips].
    apply Hids. right. exact Hj.
Qed.

Lemma summarize_ml_result_frame (s : PhyloShape) :
  only_ancestral_vectors_differ s (snd (summarize_ml_result s)).
Proof.
  unfold summarize_ml_result, shared_vectors_shape. unfold_py.
  destruct (result s) as [res|]; [|apply only_ancestral_vectors_differ_refl].
  destruct (nodes (tree s) !! 0) as [nd0|]; [|apply only_ancestral_vectors_differ_refl].
  destruct (vectors nd0) as [v0|]; [|apply only_ancestral_vectors_differ_refl].
  match goal with
  | |- context [summarize_loop ?ids ?xs ?sh ?n ?p ?st] =>
      pose proof (summarize_loop_frame ids xs sh n p st) as Hframe;
      destruct (summarize_loop ids xs sh n p st) as [[go_p|e] s']
  end; apply Hframe; intros i Hi; unfold range in Hi; apply in_seq in Hi; lia.
Qed.

(** X7. Whatever the optimiser returns, [minimize_negloglike] changes
    nothing in the object but the stored result and the vectors of ancestral
    nodes: the tips, the names, branch lengths, parents, vertices and symbol
    arrays of all nodes, the model, the transforms, the variable list, the
    translator, the formula and the compiled function are what they were. *)
Theorem minimize_changes_only_ancestral_vectors :
  forall (num_proc : Z) (self : PhyloShape) (w : World),
    only_ancestral_vectors_differ self
      (fst (snd (minimize_negloglike num_proc (self, w)))).
Proof.
  intros num_proc self w. unfold minimize_negloglike.
  destruct (attempt_loop 200 0 [] self w) as [[[count runs]|e] w'];
    [|apply only_ancestral_vectors_differ_refl].
  destruct runs as [|r runs]; [apply only_ancestral_vectors_differ_refl|].
  unfold on_self. cbn [fst snd]. unfold_py.
  pose proof (summarize_ml_result_frame (set_result (Some r) self)) as Hframe.
  destruct (summarize_ml_result (set_result (Some r) self)) as [[params|e] s'];
    cbn [fst snd] in *; exact Hframe.
Qed.

Lemma length_slice_chunk {A : Type} (xs : list A) (go_p m : nat) :
  length (slice xs go_p (go_p + m)) = Nat.min m (length xs - go_p).
Proof.
  unfold slice. replace (go_p + m - go_p) with m by lia.
  rewrite length_take, length_drop. reflexivity.
Qed.

(** The loop of [__summarize_ml_result] on a vector with enough entries. *)
Lemma summarize_loop_slices (xs : list Q) (sh : list nat) :
  forall n a go_p (s : PhyloShape),
    go_p + n * size_of sh <= length xs ->
    (forall j, a <= j < a + n -> j < length (nodes (tree s))) ->
    exists s',
      summarize_loop (seq a n) xs sh (NpInt (size_of sh)) go_p s
      = (Ok (go_p + n * size_of sh), s') /\
      (forall i, a <= i < a + n ->
         nodes (tree s') !! i
         = with_vectors
             (mk_ndarray sh
                (map Num (slice xs (go_p + (i - a) * size_of sh)
                                   (go_p + (i - a) * size_of sh + size_of sh))))
           <$> nodes (tree s) !! i) /\
      (forall i, ~ a <= i < a + n -> nodes (tree s') !! i = nodes (tree s) !! i).
Proof.
  induction n as [|n IH]; intros a go_p s Hlen Hbound.
  - exists s. rewrite Nat.add_0_r. split; [reflexivity|].
    split; [intros; lia | reflexivity].
  - destruct (lookup_lt_is_Some_2 (nodes (tree s)) a (Hbound a ltac:(lia))) as [nd Hnd].
    set (arr := mk_ndarray sh (map Num (slice xs go_p (go_p + size_of sh)))).
    set (s1 := set_tree (update_node a (with_vectors arr) (tree s)) s).
    destruct (IH (S a) (go_p + size_of sh) s1) as (s' & Hrun & Hin & Hout).
    { simpl in Hlen. lia. }
    { intros j Hj. unfold s1. cbn [tree set_tree update_node nodes].
      rewrite length_alter. apply Hbound. lia. }
    exists s'. split; [|split].
    + cbn [seq summarize_loop]. unfold_py. cbn [as_index].
      rewrite reshape_exact.
      2:{ rewrite length_map, length_slice_chunk. simpl in Hlen. lia. }
      unfold_py. rewrite Hnd. fold arr. fold s1. rewrite Hrun.
      f_equal. f_equal. simpl. lia.
    + intros i Hi. destruct (decide (i = a)) as [->|Hne].
      * rewrite Hout by lia. unfold s1. cbn [tree set_tree update_node nodes].
        rewrite list_lookup_alter_eq. unfold arr.
        rewrite Nat.sub_diag, Nat.mul_0_l, Nat.add_0_r. reflexivity.
      * rewrite Hin by lia. unfold s1. cbn [tree set_tree update_node nodes].
        rewrite list_lookup_alter_ne by auto.
        replace (i - a) with (S (i - S a)) by lia.
        replace (go_p + size_of sh + (i - S a) * size_of sh)
          with (go_p + S (i - S a) * size_of sh) by (simpl; lia).
        reflexivity.
    + intros i Hi. rewrite Hout by lia. unfold s1.
      cbn [tree set_tree update_node nodes]. apply list_lookup_alter_ne. lia.
Qed.

(** The loop of [__summarize_ml_result] on a vector that is too short. *)
Lemma summarize_loop_short (xs : list Q) (sh : list nat) :
  0 < size_of sh ->
  forall n a go_p (s : PhyloShape),
    0 < n ->
    length xs < go_p + n * size_of sh ->
    (forall j, a <= j < a + n -> j < length (nodes (tree s))) ->
    fst (summarize_loop (seq a n) xs sh (NpInt (size_of sh)) go_p s)
    = Raise ValueError.
Proof.
  intros Hm. induction n as [|n IH]; intros a go_p s Hn Hlen Hbound; [lia|].
  cbn [seq summarize_loop]. unfold_py. cbn [as_index].
  destruct (le_lt_dec (go_p + size_of sh) (length xs)) as [Hfull|Hcut].
  - rewrite reshape_exact by (rewrite length_map, length_slice_chunk; lia).
    unfold_py.
    destruct (lookup_lt_is_Some_2 (nodes (tree s)) a (Hbound a ltac:(lia))) as [nd ->].
    apply IH.
    + destruct n; [simpl in Hlen; lia | lia].
    + simpl in Hlen. lia.
    + intros j Hj. cbn [tree set_tree update_node nodes].
      rewrite length_alter. apply Hbound. lia.
  - unfold reshape. rewrite length_map, length_slice_chunk.
    replace (Nat.min (size_of sh) (length xs - go_p) =? size_of sh) with false;
      [reflexivity|].
    symmetry. apply Nat.eqb_neq. lia.
Qed.

(** X8. [__summarize_ml_result] on a result whose vector is too short for
    the model's parameters and one full vector per ancestral node: with at
    least one ancestral node and vectors that are not empty, it raises
    [ValueError] (the reshape of an incomplete chunk). *)
Theorem summarize_short_result_raises :
  forall (self : PhyloShape) (res : OptimizeResult) (nd0 : Node) (v0 : ndarray),
    result self = Some res ->
    nodes (tree self) !! 0 = Some nd0 ->
    vectors nd0 = Some v0 ->
    shape v0 <> [] ->
    0 < size_of (shape v0) ->
    ntips (tree self) < nnodes (tree self) ->
    length (x res) < length (get_parameters (model self))
                     + (nnodes (tree self) - ntips (tree self)) * size_of (shape v0) ->
    fst (summarize_ml_result self) = Raise ValueError.
Proof.
  intros self res nd0 v0 Hres Hnd0 Hv0 Hsh Hm Hanc Hlen.
  pose proof (summarize_loop_short (x res) (shape v0) Hm
                (nnodes (tree self) - ntips (tree self)) (ntips (tree self))
                (length (get_parameters (model self))) self
                ltac:(lia) Hlen) as Hloop.
  unfold summarize_ml_result, shared_vectors_shape. unfold_py.
  rewrite Hres, Hnd0, Hv0. cbn [shape]. rewrite (np_prod_nonempty _ Hsh).
  unfold range.
  destruct (summarize_loop _ _ _ _ _ self) as [[go_p|e] s'].
  - specialize (Hloop ltac:(unfold nnodes; intros; lia)). discriminate Hloop.
  - specialize (Hloop ltac:(unfold nnodes; intros; lia)). cbn [fst] in *.
    injection Hloop as ->. reflexivity.
Qed.

Lemma summarize_ml_result_by_position :
  forall (self : PhyloShape) (res : OptimizeResult) (nd0 : Node) (v0 : ndarray),
    result self = Some res ->
    nodes (tree self) !! 0 = Some nd0 ->
    vectors nd0 = Some v0 ->
    shape v0 <> [] ->
    length (get_parameters (model self))
    + (nnodes (tree self) - ntips (tree self)) * size_of (shape v0)
    <= length (x res) ->
    exists s',
      summarize_ml_result self
      = (Ok (firstn (length (get_parameters (model self))) (x res)), s') /\
      (forall i, ntips (tree self) <= i < nnodes (tree self) ->
         nodes (tree s') !! i
         = with_vectors
             (unpacked_vector (x res) (length (get_parameters (model self)))
                (ntips (tree self)) (shape v0) i)
           <$> nodes (tree self) !! i) /\
      (forall i, i < ntips (tree self) ->
         nodes (tree s') !! i = nodes (tree self) !! i).
Proof.
  intros self res nd0 v0 Hres Hnd0 Hv0 Hsh Hlen.
  destruct (summarize_loop_slices (x res) (shape v0)
              (nnodes (tree self) - ntips (tree self)) (ntips (tree self))
              (length (get_parameters (model self))) self Hlen)
    as (s' & Hrun & Hin & Hout).
  { unfold nnodes. intros; lia. }
  exists s'. split; [|split].
  - unfold summarize_ml_result, shared_vectors_shape. unfold_py.
    rewrite Hres, Hnd0, Hv0. cbn [shape]. rewrite (np_prod_nonempty _ Hsh).
    unfold range. rewrite Hrun. unfold slice.
    rewrite Nat.sub_0_r. reflexivity.
  - intros i Hi. unfold unpacked_vector. apply Hin. lia.
  - intros i Hi. apply Hout. lia.
Qed.

(** X9. [__summarize_ml_result] on a result whose vector has at least the
    needed number of entries: it returns the leading values as the model's
    parameters and gives the ancestral node [i] the chunk of index
    [i - ntips] after them, in the shared shape; entries beyond the last
    chunk are ignored, and the tips are left as they were. *)
Theorem summarize_unpacks_by_position :
  forall (self : PhyloShape) (res : OptimizeResult) (nd0 : Node) (v0 : ndarray),
    result self = Some res ->
    nodes (tree self) !! 0 = Some nd0 ->
    vectors nd0 = Some v0 ->
    shape v0 <> [] ->
    length (get_parameters (model self))
    + (nnodes (tree self) - ntips (tree self)) * size_of (shape v0)
    <= length (x res) ->
    exists s',
      summarize_ml_result self
      = (Ok (firstn (length (get_parameters (model self))) (x res)), s') /\
      (forall i, ntips (tree self) <= i < nnodes (tree self) ->
         nodes (tree s') !! i
         = with_vectors
             (unpacked_vector (x res) (length (get_parameters (model self)))
                (ntips (tree self)) (shape v0) i)
           <$> nodes (tree self) !! i) /\
      (forall i, i < ntips (tree self) ->
         nodes (tree s') !! i = nodes (tree self) !! i).
Proof. exact summarize_ml_result_by_position. Qed.

(** X10. A successful optimisation, end to end: when the attempt of index
    [k] is the first to report success and its vector has enough entries,
    [minimize_negloglike] returns normally, stores that result, and every
    ancestral node holds the numeric vector unpacked from its chunk. *)
Theorem minimize_success_unpacks_result :
  forall (num_proc : Z) (self : PhyloShape) (w : World) (k : nat)
         (r : OptimizeResult) (nd0 : Node) (v0 : ndarray),
    k < 200 ->
    (forall j, j < k -> reports_failure (attempt_result j self w)) ->
    attempt_result k self w = Ok r ->
    success r = true ->
    nodes (tree self) !! 0 = Some nd0 ->
    vectors nd0 = Some v0 ->
    shape v0 <> [] ->
    length (get_parameters (model self))
    + (nnodes (tree self) - ntips (tree self)) * size_of (shape v0)
    <= length (x r) ->
    exists s',
      minimize_negloglike num_proc (self, w)
      = (Ok tt, (s', world_after (S k) self w)) /\
      result s' = Some r /\
      (forall i, ntips (tree self) <= i < nnodes (tree self) ->
         nodes (tree s') !! i
         = with_vectors
             (unpacked_vector (x r) (length (get_parameters (model self)))
                (ntips (tree self)) (shape v0) i)
           <$> nodes (tree self) !! i) /\
      (forall i, i < ntips (tree self) ->
         nodes (tree s') !! i = nodes (tree self) !! i).
Proof.
  intros num_proc self w k r nd0 v0 Hk Hfail Hr Hsucc Hnd0 Hv0 Hsh Hlen.
  pose proof (attempt_loop_first_success self r Hsucc k 200 0 [] w Hk
                ltac:(lia) Hfail Hr) as Hloop.
  cbn [app Nat.add] in Hloop.
  destruct (summarize_ml_result_by_position (set_result (Some r) self) r nd0 v0
              eq_refl Hnd0 Hv0 Hsh Hlen) as (s' & Hrun & Hin & Hout).
  exists s'. split; [|split; [|split; [exact Hin | exact Hout]]].
  - unfold minimize_negloglike. rewrite Hloop. unfold on_self. cbn [fst snd].
    unfold_py. rewrite Hrun. reflexivity.
  - pose proof (keep_result_result r self) as Hres.
    unfold keep_result in Hres. unfold_py. rewrite Hrun in Hres. exact Hres.
Qed.

End UnpackerMore.

(** ** The tip vectors *)

Section TipVectors.

Context {ext : Externals}.

Lemma build_tip_vectors_no_transform (self : PhyloShape) :
  vect_transform self = None ->
  build_tip_vectors self
  = for_each (range 0 (ntips (tree self))) vectorise_tip self.
Proof.
  intros H. unfold build_tip_vectors, bind, get. rewrite H. reflexivity.
Qed.

Lemma vectorise_tip_outcome (tr : Translator) (s : PhyloShape) (i : nat)
    (nd : Node) (v : ndarray) :
  vv_translator s = Some tr ->
  nodes (tree s) !! i = Some nd ->
  tip_vector tr (tree s) i = Ok v ->
  vectorise_tip i s
  = (Ok tt, set_tree (update_node i (with_vectors v) (tree s)) s).
Proof.
  intros Htr Hnd Hv. unfold tip_vector, vectorise_tip in *. unfold_py.
  rewrite Hnd in *. rewrite Htr.
  destruct (vertices nd) as [vs|]; [|discriminate].
  rewrite Hv. unfold_py. rewrite Hnd. reflexivity.
Qed.

Lemma vectorise_tips_loop (tr : Translator) :
  forall n a (s : PhyloShape),
    vv_translator s = Some tr ->
    (forall i, a <= i < a + n -> exists v, tip_vector tr (tree s) i = Ok v) ->
    exists s',
      for_each (seq a n) vectorise_tip s = (Ok tt, s') /\
      (forall i nd v, a <= i < a + n ->
         nodes (tree s) !! i = Some nd -> tip_vector tr (tree s) i = Ok v ->
         nodes (tree s') !! i = Some (with_vectors v nd)) /\
      (forall i, ~ a <= i < a + n -> nodes (tree s') !! i = nodes (tree s) !! i).
Proof.
  induction n as [|n IH]; intros a s Htr Hall.
  - exists s. split; [reflexivity|]. split; [intros; lia | reflexivity].
  - destruct (Hall a ltac:(lia)) as [v Hv].
    assert (exists nd, nodes (tree s) !! a = Some nd) as [nd Hnd].
    { unfold tip_vector, tree_getitem, res_bind in Hv.
      destruct (nodes (tree s) !! a); [eauto | discriminate]. }
    set (s1 := set_tree (update_node a (with_vectors v) (tree s)) s).
    assert (Hsame : forall i, i <> a -> tip_vector tr (tree s1) i = tip_vector tr (tree s) i).
    { intros i Hi. unfold tip_vector, tree_getitem, s1.
      cbn [tree set_tree update_node nodes].
      rewrite list_lookup_alter_ne by auto. reflexivity. }
    destruct (IH (S a) s1 Htr) as (s' & Hrun & Hin & Hout).
    { intros i Hi. rewrite Hsame by lia. apply Hall. lia. }
    exists s'. split; [|split].
    + cbn [seq for_each]. unfold bind.
      rewrite (vectorise_tip_outcome tr s a nd v Htr Hnd Hv). exact Hrun.
    + intros i ndi vi Hi Hndi Hvi. destruct (decide (i = a)) as [->|Hne].
      * rewrite Hout by lia. unfold s1. cbn [tree set_tree update_node nodes].
        rewrite list_lookup_alter_eq, Hnd. simpl. congruence.
      * apply Hin; [lia | | rewrite Hsame by exact Hne; exact Hvi].
        unfold s1. cbn [tree set_tree update_node nodes].
        rewrite list_lookup_alter_ne by auto. exact Hndi.
    + intros i Hi. rewrite Hout by lia. unfold s1.
      cbn [tree set_tree update_node nodes]. apply list_lookup_alter_ne. lia.
Qed.

(** X13. [build_tip_vectors] without a transform: when the translator is
    built and [to_vectors] succeeds on the vertices of every tip, it gives
    each tip the vector computed from its own vertices and leaves the
    ancestral nodes as they were. *)
Theorem build_tip_vectors_assigns_tip_vectors :
  forall (self : PhyloShape) (tr : Translator),
    vect_transform self = None ->
    vv_translator self = Some tr ->
    (forall i, i < ntips (tree self) -> exists v, tip_vector tr (tree self) i = Ok v) ->
    exists s',
      build_tip_vectors self = (Ok tt, s') /\
      (forall i nd v, i < ntips (tree self) ->
         nodes (tree self) !! i = Some nd -> tip_vector tr (tree self) i = Ok v ->
         nodes (tree s') !! i = Some (with_vectors v nd)) /\
      (forall i, ntips (tree self) <= i ->
         nodes (tree s') !! i = nodes (tree self) !! i).
Proof.
  intros self tr Hvt Htr Hall.
  destruct (vectorise_tips_loop tr (ntips (tree self) - 0) 0 self Htr)
    as (s' & Hrun & Hin & Hout).
  { intros i Hi. apply Hall. lia. }
  exists s'. split; [|split].
  - rewrite (build_tip_vectors_no_transform self Hvt). exact Hrun.
  - intros i nd v Hi. apply Hin. lia.
  - intros i Hi. apply Hout. lia.
Qed.

Lemma build_tip_vectors_without_translator (self : PhyloShape) :
  vv_translator self = None ->
  0 < ntips (tree self) ->
  is_Some (nodes (tree self) !! 0) ->
  build_tip_vectors self = (Raise (AttributeError "to_vectors"), self).
Proof.
  intros Htr Htips [nd0 Hnd0].
  unfold build_tip_vectors, range. unfold bind at 1, get at 1.
  destruct (ntips (tree self)) as [|n]; [lia|].
  destruct (vect_transform self) as [transform|].
  - cbn [Nat.sub seq collect]. unfold tip_to_vectors. unfold_py.
    rewrite Htr. reflexivity.
  - cbn [Nat.sub seq for_each]. unfold_py. rewrite Hnd0, Htr. reflexivity.
Qed.

(** X14. [build_tip_vectors] on an object that has no translator (as after
    construction) and a tree with at least one tip raises [AttributeError],
    with or without a transform, and changes nothing. *)
Theorem build_tip_vectors_needs_translator :
  forall (self : PhyloShape),
    vv_translator self = None ->
    0 < ntips (tree self) ->
    is_Some (nodes (tree self) !! 0) ->
    build_tip_vectors self = (Raise (AttributeError "to_vectors"), self).
Proof. exact build_tip_vectors_without_translator. Qed.

(** X15. [build_vv_translator] forgets the previous translator before it
    builds the new one: when the construction raises, the object is left
    without a translator (and otherwise as it was), so that a following
    [build_tip_vectors] raises [AttributeError] instead of using a stale
    translator. *)
Theorem failed_build_vv_translator_leaves_none :
  forall (mode : string) (num_vs num_vt_iter : Z) (self : PhyloShape) (e : PyError),
    fst (build_vv_translator mode num_vs num_vt_iter self) = Raise e ->
    0 < ntips (tree self) ->
    is_Some (nodes (tree self) !! 0) ->
    snd (build_vv_translator mode num_vs num_vt_iter self)
    = set_vv_translator None self /\
    build_tip_vectors (snd (build_vv_translator mode num_vs num_vt_iter self))
    = (Raise (AttributeError "to_vectors"), set_vv_translator None self).
Proof.
  intros mode num_vs num_vt_iter self e Hfail Htips Hnd0.
  assert (Hsnd : snd (build_vv_translator mode num_vs num_vt_iter self)
                 = set_vv_translator None self).
  { unfold build_vv_translator in *. unfold_py. cbn [shapes set_vv_translator] in *.
    destruct (String.eqb mode "old").
    - destruct (sa_getitem0 (shapes self)) as [item|]; [|reflexivity].
      destruct (VertexVectorMapperOld item.2); [discriminate | reflexivity].
    - destruct (VertexVectorMapper _ mode num_vs num_vt_iter);
        [discriminate | reflexivity]. }
  split; [exact Hsnd|]. rewrite Hsnd.
  apply build_tip_vectors_without_translator;
    [reflexivity | exact Htips | exact Hnd0].
Qed.

Lemma tip_to_vectors_outcome (tr : Translator) (s : PhyloShape) (i : nat) :
  vv_translator s = Some tr ->
  tip_to_vectors i s = (tip_vector tr (tree s) i, s).
Proof.
  intros Htr. unfold tip_to_vectors, tip_vector. unfold_py. rewrite Htr.
  destruct (nodes (tree s) !! i) as [nd|]; [|reflexivity].
  destruct (vertices nd) as [vs|]; [|reflexivity].
  destruct (to_vectors tr vs); reflexivity.
Qed.

Lemma collect_tip_vectors (tr : Translator) (s : PhyloShape) :
  vv_translator s = Some tr ->
  forall ids,
    collect ids tip_to_vectors s = (res_map (tip_vector tr (tree s)) ids, s).
Proof.
  intros Htr. induction ids as [|i ids IH]; [reflexivity|].
  cbn [collect res_map]. unfold bind at 1.
  rewrite (tip_to_vectors_outcome tr s i Htr).
  destruct (tip_vector tr (tree s) i) as [v|e]; [|reflexivity].
  cbn [res_bind]. unfold bind at 1. rewrite IH.
  destruct (res_map (tip_vector tr (tree s)) ids); reflexivity.
Qed.

(** The loop that assigns the transformed vectors by position. *)
Lemma assign_by_position :
  forall (l : list ndarray) (a : nat) (s : PhyloShape),
    a + length l <= length (nodes (tree s)) ->
    exists s',
      for_each (combine (seq a (length l)) l)
        (fun p => self_tree_setattr (fst p) (with_vectors (snd p))) s
      = (Ok tt, s') /\
      (forall k v, l !! k = Some v ->
         nodes (tree s') !! (a + k) = with_vectors v <$> nodes (tree s) !! (a + k)) /\
      (forall i, ~ a <= i < a + length l ->
         nodes (tree s') !! i = nodes (tree s) !! i).
Proof.
  induction l as [|v l IH]; intros a s Hbound.
  - exists s. split; [reflexivity|]. split; [intros k v H; discriminate H | reflexivity].
  - cbn [length] in Hbound.
    destruct (lookup_lt_is_Some_2 (nodes (tree s)) a ltac:(lia)) as [nd Hnd].
    set (s1 := set_tree (update_node a (with_vectors v) (tree s)) s).
    destruct (IH (S a) s1) as (s' & Hrun & Hin & Hout).
    { unfold s1. cbn [tree set_tree update_node nodes]. rewrite length_alter. lia. }
    exists s'. split; [|split].
    + cbn [length seq combine for_each]. unfold bind at 1.
      unfold self_tree_setattr at 1. unfold_py. cbn [fst snd].
      rewrite Hnd. exact Hrun.
    + intros k vk Hk. destruct k as [|k].
      * injection Hk as <-. rewrite Nat.add_0_r.
        rewrite Hout by lia. unfold s1. cbn [tree set_tree update_node nodes].
        apply list_lookup_alter_eq.
      * cbn [lookup list_lookup] in Hk.
        replace (a + S k) with (S a + k) by lia.
        rewrite (Hin k vk Hk). unfold s1. cbn [tree set_tree update_node nodes].
        rewrite list_lookup_alter_ne by lia. reflexivity.
    + intros i Hi. cbn [length] in Hi. rewrite Hout by lia. unfold s1.
      cbn [tree set_tree update_node nodes]. apply list_lookup_alter_ne. lia.
Qed.

(** X16. [build_tip_vectors] with a transform: the vectors of all tips are
    computed first and handed to the transform together; the arrays it
    returns are assigned by position, array [i] to node [i].  The method
    does not compare their number with the number of tips: arrays beyond
    the tips are given to ancestral nodes, and nodes beyond the arrays keep
    what they had. *)
Theorem build_tip_vectors_assigns_by_position :
  forall (self : PhyloShape) (tr : Translator)
         (transform : list ndarray -> Res (list ndarray))
         (vectors_list transformed : list ndarray),
    vect_transform self = Some transform ->
    vv_translator self = Some tr ->
    res_map (tip_vector tr (tree self)) (range 0 (ntips (tree self))) = Ok vectors_list ->
    transform vectors_list = Ok transformed ->
    0 < ntips (tree self) ->
    0 < length transformed <= nnodes (tree self) ->
    exists s',
      build_tip_vectors self = (Ok tt, s') /\
      (forall i v, transformed !! i = Some v ->
         nodes (tree s') !! i = with_vectors v <$> nodes (tree self) !! i) /\
      (forall i, length transformed <= i ->
         nodes (tree s') !! i = nodes (tree self) !! i).
Proof.
  intros self tr transform vl t Hvt Htr Hvl Ht Htips Hlen.
  destruct (assign_by_position t 0 self ltac:(unfold nnodes in Hlen; lia))
    as (s' & Hrun & Hin & Hout).
  exists s'. split; [|split].
  - unfold build_tip_vectors. unfold bind at 1, get at 1. rewrite Hvt.
    unfold bind at 1. rewrite (collect_tip_vectors tr self Htr), Hvl.
    unfold bind at 1, lift_res at 1. rewrite Ht.
    unfold bind at 1. unfold enumerate. rewrite Hrun.
    assert (exists v vl', vl = v :: vl') as (v & vl' & ->).
    { unfold range in Hvl. destruct (ntips (tree self)) as [|n]; [lia|].
      cbn [Nat.sub seq res_map] in Hvl. unfold res_bind in Hvl.
      destruct (tip_vector tr (tree self) 0); [|discriminate].
      destruct (res_map _ _); [|discriminate]. injection Hvl as <-. eauto. }
    destruct t as [|v0 t']; [cbn [length] in Hlen; lia|].
    specialize (Hin 0 v0 eq_refl). cbn [Nat.add] in Hin.
    destruct (lookup_lt_is_Some_2 (nodes (tree self)) 0
                ltac:(unfold nnodes in Hlen; cbn [length] in Hlen; lia)) as [nd0 Hnd0].
    rewrite Hnd0 in Hin. unfold_py. rewrite Hin. reflexivity.
  - intros i v Hi. apply (Hin i v Hi).
  - intros i Hi. apply Hout. lia.
Qed.

End TipVectors.

(** ** More on the construction and on the initial guess *)

Section ConstructionMore.

Context {ext : Externals}.


End ConstructionMore.

(** X18. The replaced block of the initial guess: for [0 < len_vt], the
    entries before the last [len_vt] ones are the draws themselves, and the
    last [len_vt] ones are replaced by their perturbations.  On the draws of
    [np.random.random] (binary64 values of [0, 1)) every replaced entry lies
    between [8962163258467287 / 2^53], the value at the draw [1 - 2^-53],
    and [1131529406376837 / 2^50], the value at the draw 0. *)
Theorem initial_guess_replaces_last_block :
  forall (len_vt : nat) (kept replaced : list Q),
    0 < len_vt ->
    length replaced = len_vt ->
    Forall unit_double replaced ->
    propose_initials len_vt (kept ++ replaced) = kept ++ map perturb replaced /\
    Forall near_one_binary64 (map perturb replaced) /\
    (perturb 0 == 1131529406376837 # 1125899906842624)%Q /\
    (perturb (1 - 2 ^ (-53)) == 8962163258467287 # 9007199254740992)%Q.
Proof. exact propose_initials_replaced_near_one. Qed.

(** ** Symbolisation followed by the formula builder *)

Section Composition.

Context {ext : Externals}.

Lemma symbolise_loop_traverse (sh : list nat) :
  sh <> [] ->
  forall n a (s s' : PhyloShape),
    (forall j, a <= j < a + n -> j < length (nodes (tree s))) ->
    for_each (seq a n) (symbolise_node sh) s = (Ok tt, s') ->
    traverse (tree s') = traverse (tree s).
Proof.
  intros Hsh. induction n as [|n IH]; intros a s s' Hbound Hrun.
  - injection Hrun as <-. reflexivity.
  - destruct (lookup_lt_is_Some_2 (nodes (tree s)) a (Hbound a ltac:(lia))) as [nd Hnd].
    cbn [seq for_each] in Hrun. unfold bind in Hrun.
    rewrite (symbolise_node_outcome sh a s nd Hsh Hnd) in Hrun.
    apply IH in Hrun; [exact Hrun|].
    intros j Hj. cbn [tree set_tree update_node nodes].
    rewrite length_alter. apply Hbound. lia.
Qed.

(** X20. The two stages fit together.  On a tree with at least one tip,
    whose tips all have a vector (the one of tip 0 of a shape [sh] other
    than [()]) and whose traversal only lists nodes of the tree with parents
    in the tree, [sym_ancestral_vectors] followed by [formularize_log_like]
    succeeds, and the free variables are the model's parameters followed by
    the fresh symbols of the ancestral nodes: [size_of sh] per node. *)
Theorem symbolise_then_formularize :
  forall (self : PhyloShape) (log_func : Expr -> Expr) (nd0 : Node) (v0 : ndarray),
    0 < ntips (tree self) ->
    nodes (tree self) !! 0 = Some nd0 ->
    vectors nd0 = Some v0 ->
    shape v0 <> [] ->
    (forall i nd, i < ntips (tree self) -> nodes (tree self) !! i = Some nd ->
                  is_Some (vectors nd)) ->
    Forall (wired_within (tree self)) (traverse (tree self)) ->
    exists s1 s2,
      sym_ancestral_vectors self = (Ok tt, s1) /\
      formularize_log_like log_func s1 = (Ok tt, s2) /\
      variables s2
      = get_parameters (model self) ++
        flat_map (fun i => data (fresh_symbols (shape v0) i))
          (range (ntips (tree self)) (nnodes (tree self))) /\
      length (variables s2)
      = length (get_parameters (model self))
        + (nnodes (tree self) - ntips (tree self)) * size_of (shape v0).
Proof.
  intros self lf nd0 v0 Htips Hnd0 Hv0 Hsh Htipvec Hwired.
  destruct (symbolise_loop (shape v0) Hsh
              (nnodes (tree self) - ntips (tree self)) (ntips (tree self)) self)
    as (s1 & Hrun & Hmodel & Hnt & Hlen & Hin & Hout).
  { unfold nnodes. intros j Hj. lia. }
  assert (Hsym : sym_ancestral_vectors self = (Ok tt, s1)).
  { unfold sym_ancestral_vectors, shared_vectors_shape. unfold_py.
    rewrite Hnd0, Hv0. cbn [shape]. exact Hrun. }
  assert (Htrav : traverse (tree s1) = traverse (tree self)).
  { apply (symbolise_loop_traverse (shape v0) Hsh
             (nnodes (tree self) - ntips (tree self)) (ntips (tree self)) self s1);
      [unfold nnodes; intros; lia | exact Hrun]. }
  (* every node of s1 keeps its parent and has a vector *)
  assert (Hnode : forall i nd, nodes (tree self) !! i = Some nd ->
            exists nd', nodes (tree s1) !! i = Some nd' /\ up nd' = up nd /\
                        is_Some (vectors nd')).
  { intros i nd Hnd.
    destruct (le_lt_dec (ntips (tree self)) i) as [Hanc|Htip].
    - assert (Hi : i < nnodes (tree self))
        by (unfold nnodes; apply lookup_lt_is_Some_1; eauto).
      exists (with_vectors_and_symbols (fresh_symbols (shape v0) i) nd).
      rewrite Hin by lia. rewrite Hnd. split; [reflexivity|].
      split; [reflexivity | simpl; eauto].
    - exists nd. rewrite Hout by lia. split; [exact Hnd|].
      split; [reflexivity | eapply Htipvec; eauto]. }
  assert (Hready : Forall (branch_ready (model s1) (tree s1) lf) (traverse (tree s1))).
  { rewrite Htrav. eapply Forall_impl; [exact Hwired|].
    intros i (nd & Hnd & Hparent).
    destruct (Hnode i nd Hnd) as (nd' & Hnd' & Hup & [v Hv]).
    exists nd'. split; [exact Hnd'|]. intros Hroot.
    unfold branch_term. rewrite Hnd'.
    unfold is_root in Hroot. destruct (up nd') as [j|] eqn:Hj; [|discriminate].
    assert (Hj' : up nd = Some j) by congruence.
    destruct (lookup_lt_is_Some_2 (nodes (tree self)) j (Hparent j Hj')) as [p Hp].
    destruct (Hnode j p Hp) as (p' & Hp' & _ & [vp Hvp]).
    rewrite Hp', Hvp, Hv. eauto. }
  assert (Hsyms : forall i, ntips (tree s1) <= i < nnodes (tree s1) ->
            exists nd a, nodes (tree s1) !! i = Some nd /\ vectors_symbols nd = Some a /\
                         a = fresh_symbols (shape v0) i).
  { intros i Hi. unfold nnodes in Hi. rewrite Hnt, Hlen in Hi.
    destruct (lookup_lt_is_Some_2 (nodes (tree self)) i ltac:(lia)) as [nd Hnd].
    exists (with_vectors_and_symbols (fresh_symbols (shape v0) i) nd),
      (fresh_symbols (shape v0) i).
    rewrite Hin by (unfold nnodes; lia). rewrite Hnd. repeat split. }
  destruct (formularize_loop s1 lf (traverse (tree s1)) (Num 0) Hready)
    as (terms & _ & Hloop).
  exists s1, (set_variables (packing s1)
                (set_loglike_form (fold_left Add terms (Num 0)) s1)).
  split; [exact Hsym|]. split.
  { unfold formularize_log_like.
    unfold bind at 1, modify at 1. unfold bind at 1, get at 1.
    unfold bind at 1. simpl. rewrite Hloop.
    apply (update_variables_outcome
             (set_loglike_form (fold_left Add terms (Num 0)) s1)).
    intros i Hi. destruct (Hsyms i Hi) as (nd & a & Hnd & Ha & _). eauto. }
  assert (Hpack : packing s1
                  = get_parameters (model self) ++
                    flat_map (fun i => data (fresh_symbols (shape v0) i))
                      (range (ntips (tree self)) (nnodes (tree self)))).
  { unfold packing. rewrite Hmodel. f_equal.
    unfold nnodes. rewrite Hnt, Hlen. apply flat_map_ext_In.
    intros i Hi. unfold range in Hi. apply in_seq in Hi.
    destruct (Hsyms i ltac:(unfold nnodes; rewrite Hnt, Hlen; lia))
      as (nd & a & Hnd & Ha & ->).
    unfold node_symbols. rewrite Hnd, Ha. reflexivity. }
  cbn [variables set_variables]. split; [exact Hpack|].
  rewrite Hpack, length_app. f_equal. unfold range.
  rewrite (flat_map_uniform_length _ (size_of (shape v0))).
  - rewrite length_seq. reflexivity.
  - intros i _. unfold fresh_symbols, range. cbn [data].
    rewrite length_map, length_seq. lia.
Qed.

End Composition.

(** ** What the formula builder and the retry loop leave alone *)

Section Frames.

Context {ext : Externals}.

Lemma formularize_step_frame lf (i : nat) (s : PhyloShape) :
  only_formula_and_variables_differ s (snd (formularize_step lf i s)).
Proof.
  unfold formularize_step. unfold_py.
  destruct (nodes (tree s) !! i) as [nd|]; [|reflexivity].
  destruct (up nd) as [j|]; [|reflexivity].
  destruct (nodes (tree s) !! j) as [parent|]; [|reflexivity].
  destruct (vectors parent); [|reflexivity].
  destruct (vectors nd); reflexivity.
Qed.

Lemma for_each_frame {A : Type} (body : A -> M PhyloShape unit) :
  (forall a s, only_formula_and_variables_differ s (snd (body a s))) ->
  forall l s, only_formula_and_variables_differ s (snd (for_each l body s)).
Proof.
  intros Hbody. induction l as [|a l IH]; intros s; [reflexivity|].
  cbn [for_each]. unfold bind.
  pose proof (Hbody a s) as Hstep.
  destruct (body a s) as [[u|e] s1]; cbn [snd] in *.
  - unfold only_formula_and_variables_differ in *. rewrite <- Hstep. apply IH.
  - exact Hstep.
Qed.

Lemma update_variables_frame (s : PhyloShape) :
  only_formula_and_variables_differ s (snd (update_variables s)).
Proof.
  unfold update_variables.
  unfold bind at 1, modify at 1. unfold bind at 1, modify at 1.
  unfold bind at 1, get at 1.
  match goal with
  | |- context [for_each ?l ?body ?st] =>
      pose proof (for_each_frame body) as Hloop;
      specialize (Hloop
        ltac:(intros a s0; unfold_py;
              destruct (nodes (tree s0) !! a) as [nd|]; [|reflexivity];
              destruct (vectors_symbols nd); reflexivity) l st)
  end.
  exact Hloop.
Qed.

(** X21. [formularize_log_like] touches the formula and the variable list
    only, in every outcome: the tree and its nodes, the model, the
    transforms, the translator, the stored result and, in particular, a
    function compiled earlier are what they were; the compiled function is
    not invalidated when the formula is rebuilt. *)
Theorem formularize_changes_only_formula_and_variables :
  forall (log_func : Expr -> Expr) (self : PhyloShape),
    only_formula_and_variables_differ self (snd (formularize_log_like log_func self)).
Proof.
  intros lf self. unfold formularize_log_like.
  unfold bind at 1, modify at 1. unfold bind at 1, get at 1. unfold bind at 1.
  pose proof (for_each_frame (formularize_step lf) (formularize_step_frame lf)
                (traverse (tree (set_loglike_form (Num 0) self)))
                (set_loglike_form (Num 0) self)) as Hloop.
  destruct (for_each _ (formularize_step lf) (set_loglike_form (Num 0) self))
    as [[u|e] s1]; cbn [snd] in *.
  - pose proof (update_variables_frame s1) as Hupd.
    unfold only_formula_and_variables_differ in *.
    rewrite Hupd. exact Hloop.
  - exact Hloop.
Qed.

Lemma attempt_loop_raises (self : PhyloShape) (e : PyError) :
  forall k fuel count_run runs w,
    k < fuel ->
    count_run + fuel <= 200 ->
    (forall j, j < k -> reports_failure (attempt_result j self w)) ->
    attempt_result k self w = Raise e ->
    attempt_loop fuel count_run runs self w = (Raise e, world_after (S k) self w).
Proof.
  induction k as [|k IH]; intros fuel c runs w Hk Hc Hfail Hr;
    (destruct fuel as [|fuel]; [lia|]);
    cbn [attempt_loop world_after];
    replace (c <? 200) with true by (symmetry; apply Nat.ltb_lt; lia).
  - unfold attempt_result in Hr. cbn [world_after] in Hr.
    destruct (attempt self w) as [r0 w'] eqn:Hatt. simpl in Hr. subst r0.
    reflexivity.
  - destruct (Hfail 0 ltac:(lia)) as (r0 & Hr0 & Hs0).
    unfold attempt_result in Hr0, Hr. cbn [world_after] in Hr0, Hr.
    destruct (attempt self w) as [r1 w'] eqn:Hatt. simpl in Hr0. subst r1.
    rewrite Hs0. cbn [snd] in *.
    apply IH; [lia | lia | | exact Hr].
    intros j Hj. specialize (Hfail (S j) ltac:(lia)).
    unfold attempt_result in *. cbn [world_after] in Hfail.
    rewrite Hatt in Hfail. exact Hfail.
Qed.

(** X22. The retry loop retries reported failures only.  When an attempt
    raises (its predecessors having reported non-success),
    [minimize_negloglike] raises the same exception at once: no further
    attempt is made, it is not turned into "optimization failed!", and the
    object is left as it was. *)
Theorem exception_in_attempt_is_not_retried :
  forall (num_proc : Z) (self : PhyloShape) (w : World) (k : nat) (e : PyError),
    k < 200 ->
    (forall j, j < k -> reports_failure (attempt_result j self w)) ->
    attempt_result k self w = Raise e ->
    minimize_negloglike num_proc (self, w)
    = (Raise e, (self, world_after (S k) self w)).
Proof.
  intros num_proc self w k e Hk Hfail Hr. unfold minimize_negloglike.
  rewrite (attempt_loop_raises self e k 200 0 [] w Hk ltac:(lia) Hfail Hr).
  reflexivity.
Qed.

End Frames.

(** ** More on the ancestral vertices and the entry point *)

Lemma bind_Ok_inv {S A B : Type} (m : M S A) (k : A -> M S B) (s s' : S) (b : B) :
  bind m k s = (Ok b, s') ->
  exists a s1, m s = (Ok a, s1) /\ k a s1 = (Ok b, s').
Proof.
  unfold bind. destruct (m s) as [[a|e] s1]; [eauto | discriminate].
Qed.

Lemma Vertices_init_no_colors_inv (cs : list Coord) (vs : Vertices) :
  Vertices_init (Some cs) None = Ok vs -> vs = mk_Vertices [] [].
Proof.
  unfold Vertices_init. destruct cs; simpl; intros H; [|discriminate].
  injection H as <-. reflexivity.
Qed.

Section AncestralVerticesMore.

Context {ext : Externals}.

Lemma vertices_step_Ok_inv inv (i : nat) (s s' : PhyloShape) :
  vertices_step inv i s = (Ok tt, s') ->
  exists nd,
    nodes (tree s) !! i = Some nd /\
    s' = set_tree (update_node i (with_vertices (mk_Vertices [] [])) (tree s)) s.
Proof.
  unfold vertices_step. destruct inv as [inverse|]; unfold_py; intros H.
  - destruct (nodes (tree s) !! i) as [nd|] eqn:Hnd; [|discriminate].
    destruct (vectors nd) as [v|]; [|discriminate].
    destruct (inverse v) as [rv|]; [|discriminate].
    destruct (vv_translator s) as [tr|]; [|discriminate].
    destruct (to_vertices tr rv) as [cs|]; [|discriminate].
    destruct (Vertices_init (Some cs) None) as [vs|] eqn:Hvs; [|discriminate].
    apply Vertices_init_no_colors_inv in Hvs. subst vs.
    unfold_py. rewrite Hnd in H. injection H as <-. eauto.
  - destruct (vv_translator s) as [tr|]; [|discriminate].
    destruct (nodes (tree s) !! i) as [nd|] eqn:Hnd; [|discriminate].
    destruct (vectors nd) as [v|]; [|discriminate].
    destruct (to_vertices tr v) as [cs|]; [|discriminate].
    destruct (Vertices_init (Some cs) None) as [vs|] eqn:Hvs; [|discriminate].
    apply Vertices_init_no_colors_inv in Hvs. subst vs.
    unfold_py. rewrite Hnd in H. injection H as <-. eauto.
Qed.

Lemma vertices_loop_Ok_inv inv :
  forall n a (s s' : PhyloShape),
    for_each (seq a n) (vertices_step inv) s = (Ok tt, s') ->
    ntips (tree s') = ntips (tree s) /\
    length (nodes (tree s')) = length (nodes (tree s)) /\
    (forall i, a <= i < a + n ->
       exists nd, nodes (tree s) !! i = Some nd /\
                  nodes (tree s') !! i = Some (with_vertices (mk_Vertices [] []) nd)) /\
    (forall i, ~ a <= i < a + n -> nodes (tree s') !! i = nodes (tree s) !! i).
Proof.
  induction n as [|n IH]; intros a s s' Hrun.
  - injection Hrun as <-. repeat split; intros; lia || reflexivity.
  - cbn [seq for_each] in Hrun.
    apply bind_Ok_inv in Hrun. destruct Hrun as ([] & s1 & Hstep & Hrest).
    apply vertices_step_Ok_inv in Hstep. destruct Hstep as (nd & Hnd & ->).
    apply IH in Hrest. destruct Hrest as (Htips & Hlen & Hin & Hout).
    cbn [tree set_tree update_node nodes ntips] in *.
    rewrite length_alter in Hlen.
    split; [exact Htips|]. split; [exact Hlen|]. split.
    + intros i Hi. destruct (decide (i = a)) as [->|Hne].
      * exists nd. split; [exact Hnd|].
        rewrite Hout by lia. rewrite list_lookup_alter_eq, Hnd. reflexivity.
      * destruct (Hin i ltac:(lia)) as (ndi & Hndi & Hndi').
        rewrite list_lookup_alter_ne in Hndi by auto. eauto.
    + intros i Hi. rewrite Hout by lia. apply list_lookup_alter_ne. lia.
Qed.

Lemma build_ancestral_vertices_Ok_inv (self s' : PhyloShape) :
  build_ancestral_vertices self = (Ok tt, s') ->
  ntips (tree s') = ntips (tree self) /\
  nnodes (tree s') = nnodes (tree self) /\
  (forall i, ntips (tree self) <= i < nnodes (tree self) ->
     exists nd, nodes (tree self) !! i = Some nd /\
                nodes (tree s') !! i = Some (with_vertices (mk_Vertices [] []) nd)) /\
  (forall i, i < ntips (tree self) ->
     nodes (tree s') !! i = nodes (tree self) !! i).
Proof.
  rewrite build_ancestral_vertices_unfold. unfold range. intros Hrun.
  apply vertices_loop_Ok_inv in Hrun. destruct Hrun as (Htips & Hlen & Hin & Hout).
  split; [exact Htips|]. split; [exact Hlen|]. split.
  - intros i Hi. apply Hin. lia.
  - intros i Hi. apply Hout. lia.
Qed.

(** X11. [build_ancestral_vertices] can only succeed with nothing
    reconstructed: when it returns normally, every ancestral node carries the
    empty [Vertices] (no coordinate, no color), and the tips are untouched.
    A non-empty reconstruction always ends in the assertion of
    [Vertices.__init__]. *)
Theorem build_ancestral_vertices_succeeds_only_empty :
  forall (self s' : PhyloShape),
    build_ancestral_vertices self = (Ok tt, s') ->
    (forall i, ntips (tree self) <= i < nnodes (tree self) ->
       exists nd, nodes (tree self) !! i = Some nd /\
                  nodes (tree s') !! i = Some (with_vertices (mk_Vertices [] []) nd)) /\
    (forall i, i < ntips (tree self) ->
       nodes (tree s') !! i = nodes (tree self) !! i).
Proof.
  intros self s' Hrun.
  apply build_ancestral_vertices_Ok_inv in Hrun.
  destruct Hrun as (_ & _ & Hin & Hout). split; assumption.
Qed.

Lemma on_self_Ok_inv {A : Type} (m : M PhyloShape A) (s s' : PhyloShape)
    (w w' : World) (a : A) :
  on_self m (s, w) = (Ok a, (s', w')) -> m s = (Ok a, s') /\ w' = w.
Proof.
  unfold on_self. cbn [fst snd]. destruct (m s) as [r s1].
  intros H. injection H as -> -> ->. split; reflexivity.
Qed.

(** X12. The entry point cannot deliver a non-empty reconstructed shape:
    whenever [reconstruct_ancestral_shapes_using_ml] returns normally, every
    ancestral node of the tree carries the empty [Vertices]. *)
Theorem reconstruct_succeeds_only_empty :
  forall (mode : string) (num_vs num_vt_iter num_proc : Z)
         (self s' : PhyloShape) (w w' : World),
    reconstruct_ancestral_shapes_using_ml mode num_vs num_vt_iter num_proc (self, w)
    = (Ok tt, (s', w')) ->
    forall i, ntips (tree s') <= i < nnodes (tree s') ->
      exists nd', nodes (tree s') !! i = Some nd' /\
                  vertices nd' = Some (mk_Vertices [] []).
Proof.
  intros mode num_vs num_vt_iter num_proc self s' w w' Hrun i Hi.
  unfold reconstruct_ancestral_shapes_using_ml in Hrun.
  repeat (apply bind_Ok_inv in Hrun; destruct Hrun as (? & [? ?] & _ & Hrun)).
  apply on_self_Ok_inv in Hrun. destruct Hrun as [Hbuild _].
  apply build_ancestral_vertices_Ok_inv in Hbuild.
  destruct Hbuild as (Htips & Hlen & Hin & _).
  destruct (Hin i ltac:(lia)) as (nd & _ & Hnd').
  eexists. split; [exact Hnd' | reflexivity].
Qed.

End AncestralVerticesMore.

(** * The statements on concrete inputs *)

Section Runs.

Import Toy Examples.

Lemma vertices_without_colors_assertion_witness :
  Vertices_init (Some [(1, 0, 0)%Q]) None = Raise (AssertionError no_message) /\
  fst (build_ancestral_vertices (minimized always cherry ["a"; "b"]))
  = Raise (AssertionError no_message).
Proof.
  split.
  - apply (proj1 (vertices_without_colors_assertion (ext := externals always))).
    discriminate.
  - eapply (proj2 (vertices_without_colors_assertion (ext := externals always))
              (minimized always cherry ["a"; "b"]) translator 2).
    + vm_compute. reflexivity.
    + vm_compute. lia.
    + intros i Hi. vm_compute in Hi. assert (i = 2) as -> by lia.
      eexists. eexists. eexists. vm_compute. repeat split.
    + eexists. eexists. vm_compute. repeat split.
    + discriminate.
Defined.

Lemma unpacking_inverts_packing_witness :
  let self := symbolised always three_tips ["a"; "b"; "c"] in
  exists s1,
    update_variables self = (Ok tt, s1) /\
    variables s1 = packing self /\
    forall res : OptimizeResult,
      x res = map valuation (variables s1) ->
      exists s2,
        summarize_ml_result (set_result (Some res) s1)
        = (Ok (map valuation (get_parameters (model self))), s2).
Proof.
  intros self.
  destruct (unpacking_inverts_packing (ext := externals always) self
              (mk_Node "a" 1 (Some 3) (Some (point 1))
                 (Some (mk_ndarray [1; 3] [Num 1; Num 0; Num 0])) None)
              (mk_ndarray [1; 3] [Num 1; Num 0; Num 0]) valuation)
    as (s1 & Hupd & Hvars & _ & Hunpack).
  - vm_compute. reflexivity.
  - reflexivity.
  - discriminate.
  - intros i Hi. vm_compute in Hi.
    assert (i = 3 \/ i = 4) as [-> | ->] by lia;
      eexists; eexists; vm_compute; repeat split.
  - exists s1. split; [exact Hupd|]. split; [exact Hvars|].
    intros res Hx. destruct (Hunpack res Hx) as (s2 & Hs2 & _).
    exists s2. exact Hs2.
Defined.

Lemma exhausted_attempts_are_fatal_witness :
  let self := compiled never cherry ["a"; "b"] in
  minimize_negloglike (ext := externals never) 1 (self, start)
  = (Raise (PyException "optimization failed!"), (self, world_after 200 self start)).
Proof.
  intros self.
  apply (exhausted_attempts_are_fatal (ext := externals never) 1 self start).
  intros k _. unfold attempt_result.
  generalize (world_after k self start). intros w.
  eexists. split; [vm_compute; reflexivity | reflexivity].
Defined.

Lemma first_success_wins_witness :
  let self := compiled from_third cherry ["a"; "b"] in
  exists r,
    attempt_loop (ext := externals from_third) 200 0 [] self start
    = (Ok (2, [r]), world_after 3 self start) /\
    snd (snd (minimize_negloglike (ext := externals from_third) 1 (self, start)))
    = world_after 3 self start.
Proof.
  intros self.
  exists (mk_OptimizeResult true 0 (propose_initials 3 (repeat (1 # 2)%Q 4))).
  destruct (first_success_wins (ext := externals from_third) 1 self start 2
              (mk_OptimizeResult true 0 (propose_initials 3 (repeat (1 # 2)%Q 4)))
              ltac:(lia)) as (Hloop & _ & Hworld & _).
  - intros j Hj. assert (j = 0 \/ j = 1) as [-> | ->] by lia;
      (eexists; split; [vm_compute; reflexivity | reflexivity]).
  - vm_compute. reflexivity.
  - reflexivity.
  - split; [exact Hloop | exact Hworld].
Defined.

Lemma missing_tip_is_fatal_at_binding_witness :
  exists j missing tree',
    j < ntips cherry /\ nodes cherry !! j = Some missing /\
    sa_contains (alignment ["a"]) (name missing) = false /\
    PhyloShape_init (ext := externals always) cherry (alignment ["a"]) None None None
    = (Raise (AssertionError (missing_message (name missing))), tree') /\
    same_names cherry tree'.
Proof.
  apply (missing_tip_is_fatal_at_binding (ext := externals always)
           cherry (alignment ["a"]) None None None 1 (tip "b" 2)).
  - vm_compute. lia.
  - vm_compute. lia.
  - reflexivity.
  - reflexivity.
Defined.


Lemma loglike_form_is_sum_of_branch_terms_witness :
  let self := symbolised always cherry ["a"; "b"] in
  exists terms s',
    mapM (branch_term (model self) (tree self) Log)
         (List.filter (non_root (tree self)) (traverse (tree self))) = Some terms /\
    formularize_log_like Log self = (Ok tt, s') /\
    loglike_form s' = running_sum terms /\
    length terms = 2.
Proof.
  intros self.
  destruct (loglike_form_is_sum_of_branch_terms (ext := externals always) self Log)
    as (terms & s' & Hterms & Hrun & Hform & _).
  - assert (Horder : traverse (tree self) = [0; 1; 2]) by reflexivity.
    rewrite Horder.
    constructor; [|constructor; [|constructor; [|constructor]]];
      (eexists; split; [vm_compute; reflexivity|]; intros Hroot;
       first [ discriminate Hroot | vm_compute; eexists; reflexivity ]).
  - intros i Hi. vm_compute in Hi. assert (i = 2) as -> by lia.
    eexists. eexists. vm_compute. repeat split.
  - exists terms, s'. split; [exact Hterms|]. split; [exact Hrun|].
    split; [exact Hform|].
    vm_compute in Hterms. injection Hterms as <-. reflexivity.
Defined.


End Runs.

(** * The further properties on concrete inputs *)

Section MoreRuns.

Import Toy Examples MoreExamples.

Lemma sym_ancestral_vectors_assigns_fresh_symbols_witness :
  let self := vectorised three_tips ["a"; "b"; "c"] in
  exists s',
    sym_ancestral_vectors self = (Ok tt, s') /\
    ntips (tree s') = 3 /\
    nodes (tree s') !! 4
    = with_vectors_and_symbols (fresh_symbols [1; 3] 4) <$> nodes (tree self) !! 4.
Proof.
  intros self.
  destruct (sym_ancestral_vectors_assigns_fresh_symbols (ext := externals always) self
              (mk_Node "a" 1 (Some 3) (Some (point 1))
                 (Some (mk_ndarray [1; 3] [Num 1; Num 0; Num 0])) None)
              (mk_ndarray [1; 3] [Num 1; Num 0; Num 0]))
    as (s' & Hrun & Htips & _ & Hin & _).
  - vm_compute. reflexivity.
  - reflexivity.
  - discriminate.
  - exists s'. split; [exact Hrun|]. split; [exact Htips|].
    apply (Hin 4). vm_compute. lia.
Defined.

Lemma ancestral_symbols_are_distinct_witness :
  let s' := symbolised always three_tips ["a"; "b"; "c"] in
  List.NoDup (flat_map (node_symbols (tree s')) (range (ntips (tree s')) (nnodes (tree s')))).
Proof.
  intros s'.
  apply (ancestral_symbols_are_distinct (ext := externals always)
           (vectorised three_tips ["a"; "b"; "c"])
           (mk_Node "a" 1 (Some 3) (Some (point 1))
              (Some (mk_ndarray [1; 3] [Num 1; Num 0; Num 0])) None)
           (mk_ndarray [1; 3] [Num 1; Num 0; Num 0]) s').
  - vm_compute. reflexivity.
  - reflexivity.
  - discriminate.
  - vm_compute. reflexivity.
Defined.

Lemma formularize_counts_variables_witness :
  let self := symbolised always three_tips ["a"; "b"; "c"] in
  length (variables (snd (formularize_log_like Log self))) = 1 + (5 - 3) * 3.
Proof.
  intros self.
  refine (proj2 (proj2 (formularize_counts_variables (ext := externals always)
                          self Log 3 _ _))).
  - assert (Horder : traverse (tree self) = [0; 1; 3; 2; 4]) by reflexivity.
    rewrite Horder.
    repeat (constructor;
            [eexists; split; [vm_compute; reflexivity|]; intros Hroot;
             first [ discriminate Hroot | vm_compute; eexists; reflexivity ] |]).
    constructor.
  - intros i Hi. vm_compute in Hi.
    assert (i = 3 \/ i = 4) as [-> | ->] by lia;
      eexists; eexists; vm_compute; repeat split.
Defined.

Lemma formularize_log_like_idempotent_witness :
  let self := symbolised always cherry ["a"; "b"] in
  exists s1,
    formularize_log_like Log self = (Ok tt, s1) /\
    formularize_log_like Log s1 = (Ok tt, s1).
Proof.
  intros self.
  apply (formularize_log_like_idempotent (ext := externals always) self Log).
  - assert (Horder : traverse (tree self) = [0; 1; 2]) by reflexivity.
    rewrite Horder.
    repeat (constructor;
            [eexists; split; [vm_compute; reflexivity|]; intros Hroot;
             first [ discriminate Hroot | vm_compute; eexists; reflexivity ] |]).
    constructor.
  - intros i Hi. vm_compute in Hi. assert (i = 2) as -> by lia.
    eexists. eexists. vm_compute. repeat split.
Defined.

Lemma formularize_needs_vectors_witness :
  let self := vectorised cherry ["a"; "b"] in
  fst (formularize_log_like Log self) = Raise (AttributeError "vectors") /\
  variables (snd (formularize_log_like Log self)) = variables self.
Proof.
  intros self.
  destruct (formularize_needs_vectors (ext := externals always) self Log)
    as (Hraise & Hvars & _).
  - assert (Horder : traverse (tree self) = [0; 1; 2]) by reflexivity.
    rewrite Horder.
    repeat (constructor;
            [eexists; split; [vm_compute; reflexivity|]; intros j Hj;
             vm_compute in Hj; first [ discriminate Hj | injection Hj as <- ];
             vm_compute; eexists; reflexivity |]).
    constructor.
  - apply Exists_cons_hd. eexists. exists 2. eexists.
    split; [vm_compute; reflexivity|]. split; [reflexivity|].
    split; [vm_compute; reflexivity|]. left. reflexivity.
  - split; [exact Hraise | exact Hvars].
Defined.

Lemma summarize_short_result_raises_witness :
  fst (summarize_ml_result
         (set_result (Some short_result) (compiled always cherry ["a"; "b"])))
  = Raise ValueError.
Proof.
  apply (summarize_short_result_raises (ext := externals always)
           (set_result (Some short_result) (compiled always cherry ["a"; "b"]))
           short_result
           (mk_Node "a" 1 (Some 2) (Some (point 1))
              (Some (mk_ndarray [1; 3] [Num 1; Num 0; Num 0])) None)
           (mk_ndarray [1; 3] [Num 1; Num 0; Num 0])).
  - reflexivity.
  - vm_compute. reflexivity.
  - reflexivity.
  - discriminate.
  - vm_compute. lia.
  - vm_compute. lia.
  - vm_compute. lia.
Defined.

Lemma summarize_unpacks_by_position_witness :
  let self := set_result (Some long_result) (compiled always cherry ["a"; "b"]) in
  exists s',
    summarize_ml_result self = (Ok [2]%Q, s') /\
    nodes (tree s') !! 2
    = with_vectors (mk_ndarray [1; 3] [Num (7 # 10); Num (8 # 10); Num (9 # 10)])
        <$> nodes (tree self) !! 2.
Proof.
  intros self.
  destruct (summarize_unpacks_by_position (ext := externals always) self long_result
              (mk_Node "a" 1 (Some 2) (Some (point 1))
                 (Some (mk_ndarray [1; 3] [Num 1; Num 0; Num 0])) None)
              (mk_ndarray [1; 3] [Num 1; Num 0; Num 0]))
    as (s' & Hrun & Hin & _).
  - reflexivity.
  - vm_compute. reflexivity.
  - reflexivity.
  - discriminate.
  - vm_compute. lia.
  - exists s'. split; [exact Hrun|]. apply (Hin 2). vm_compute. lia.
Defined.

Lemma minimize_success_unpacks_result_witness :
  let self := compiled from_third cherry ["a"; "b"] in
  exists s',
    minimize_negloglike (ext := externals from_third) 1 (self, start)
    = (Ok tt, (s', world_after 3 self start)) /\
    nodes (tree s') !! 2
    = with_vectors
        (unpacked_vector (propose_initials 3 (repeat (1 # 2)%Q 4)) 1 2 [1; 3] 2)
        <$> nodes (tree self) !! 2.
Proof.
  intros self.
  destruct (minimize_success_unpacks_result (ext := externals from_third) 1 self start 2
              (mk_OptimizeResult true 0 (propose_initials 3 (repeat (1 # 2)%Q 4)))
              (mk_Node "a" 1 (Some 2) (Some (point 1))
                 (Some (mk_ndarray [1; 3] [Num 1; Num 0; Num 0])) None)
              (mk_ndarray [1; 3] [Num 1; Num 0; Num 0]))
    as (s' & Hrun & _ & Hin & _).
  - lia.
  - intros j Hj. assert (j = 0 \/ j = 1) as [-> | ->] by lia;
      (eexists; split; [vm_compute; reflexivity | reflexivity]).
  - vm_compute. reflexivity.
  - reflexivity.
  - vm_compute. reflexivity.
  - reflexivity.
  - discriminate.
  - vm_compute. lia.
  - exists s'. split; [exact Hrun|]. apply (Hin 2). vm_compute. lia.
Defined.

Lemma build_ancestral_vertices_succeeds_only_empty_witness :
  let self := hollow_minimized cherry ["a"; "b"] in
  exists nd,
    nodes (tree self) !! 2 = Some nd /\
    nodes (tree (snd (build_ancestral_vertices self))) !! 2
    = Some (with_vertices (mk_Vertices [] []) nd).
Proof.
  intros self.
  apply (proj1 (build_ancestral_vertices_succeeds_only_empty
                  (ext := Hollow.externals always) self
                  (snd (build_ancestral_vertices self))
                  ltac:(vm_compute; reflexivity)) 2).
  vm_compute. lia.
Defined.

Lemma reconstruct_succeeds_only_empty_witness :
  let out := reconstruct_ancestral_shapes_using_ml (ext := Hollow.externals always)
               "network-local" 20 5 4 (Hollow.constructed cherry ["a"; "b"], start) in
  exists nd', nodes (tree (fst (snd out))) !! 2 = Some nd' /\
              vertices nd' = Some (mk_Vertices [] []).
Proof.
  intros out.
  apply (reconstruct_succeeds_only_empty (ext := Hollow.externals always)
           "network-local" 20 5 4 (Hollow.constructed cherry ["a"; "b"])
           (fst (snd out)) start (snd (snd out))).
  - vm_compute. reflexivity.
  - vm_compute. lia.
Defined.

Lemma build_tip_vectors_assigns_tip_vectors_witness :
  let self := translated cherry ["a"; "b"] in
  exists s',
    build_tip_vectors self = (Ok tt, s') /\
    nodes (tree s') !! 1
    = Some (with_vectors (mk_ndarray [1; 3] [Num 1; Num 0; Num 0])
              (mk_Node "b" 1 (Some 2) (Some (point 1)) None None)).
Proof.
  intros self.
  destruct (build_tip_vectors_assigns_tip_vectors (ext := externals always) self translator)
    as (s' & Hrun & Hin & _).
  - reflexivity.
  - reflexivity.
  - intros i Hi. vm_compute in Hi.
    assert (i = 0 \/ i = 1) as [-> | ->] by lia; eexists; vm_compute; reflexivity.
  - exists s'. split; [exact Hrun|]. apply (Hin 1).
    + vm_compute. lia.
    + vm_compute. reflexivity.
    + vm_compute. reflexivity.
Defined.

Lemma build_tip_vectors_needs_translator_witness :
  let self := constructed always cherry ["a"; "b"] in
  build_tip_vectors self = (Raise (AttributeError "to_vectors"), self).
Proof.
  intros self.
  apply (build_tip_vectors_needs_translator (ext := externals always) self).
  - reflexivity.
  - vm_compute. lia.
  - eexists. vm_compute. reflexivity.
Defined.

Lemma failed_build_vv_translator_leaves_none_witness :
  let self := set_vv_translator (Some translator) (blank always) in
  snd (build_vv_translator "old" 20 5 self) = set_vv_translator None self /\
  build_tip_vectors (snd (build_vv_translator "old" 20 5 self))
  = (Raise (AttributeError "to_vectors"), set_vv_translator None self).
Proof.
  intros self.
  apply (failed_build_vv_translator_leaves_none (ext := externals always)
           "old" 20 5 self IndexError).
  - vm_compute. reflexivity.
  - vm_compute. lia.
  - eexists. vm_compute. reflexivity.
Defined.

Lemma build_tip_vectors_assigns_by_position_witness :
  let self := translated_with_transforms cherry ["a"; "b"] in
  exists s',
    build_tip_vectors self = (Ok tt, s') /\
    nodes (tree s') !! 1
    = with_vectors (mk_ndarray [1; 3] [Num 1; Num 0; Num 0]) <$> nodes (tree self) !! 1.
Proof.
  intros self.
  destruct (build_tip_vectors_assigns_by_position (ext := externals always) self
              translator (fun l => Ok l)
              [mk_ndarray [1; 3] [Num 1; Num 0; Num 0];
               mk_ndarray [1; 3] [Num 1; Num 0; Num 0]]
              [mk_ndarray [1; 3] [Num 1; Num 0; Num 0];
               mk_ndarray [1; 3] [Num 1; Num 0; Num 0]])
    as (s' & Hrun & Hin & _).
  - reflexivity.
  - reflexivity.
  - vm_compute. reflexivity.
  - reflexivity.
  - vm_compute. lia.
  - vm_compute. lia.
  - exists s'. split; [exact Hrun|]. apply (Hin 1). reflexivity.
Defined.


Lemma initial_guess_replaces_last_block_witness :
  propose_initials 2 ([1 # 4] ++ [1 # 2; 3 # 4])%Q
  = ([1 # 4] ++ map perturb [1 # 2; 3 # 4])%Q /\
  Forall near_one_binary64 (map perturb [1 # 2; 3 # 4]%Q) /\
  (perturb 0 == 1131529406376837 # 1125899906842624)%Q /\
  (perturb (1 - 2 ^ (-53)) == 8962163258467287 # 9007199254740992)%Q.
Proof.
  apply (initial_guess_replaces_last_block 2 [1 # 4]%Q [1 # 2; 3 # 4]%Q).
  - lia.
  - reflexivity.
  - constructor; [split; vm_compute; discriminate|].
    constructor; [split; vm_compute; discriminate|]. constructor.
Defined.

Lemma symbolise_then_formularize_witness :
  let self := vectorised three_tips ["a"; "b"; "c"] in
  exists s1 s2,
    sym_ancestral_vectors self = (Ok tt, s1) /\
    formularize_log_like Log s1 = (Ok tt, s2) /\
    length (variables s2) = 1 + (5 - 3) * 3.
Proof.
  intros self.
  destruct (symbolise_then_formularize (ext := externals always) self Log
              (mk_Node "a" 1 (Some 3) (Some (point 1))
                 (Some (mk_ndarray [1; 3] [Num 1; Num 0; Num 0])) None)
              (mk_ndarray [1; 3] [Num 1; Num 0; Num 0]))
    as (s1 & s2 & Hsym & Hform & _ & Hlen).
  - vm_compute. lia.
  - vm_compute. reflexivity.
  - reflexivity.
  - discriminate.
  - intros i nd Hi Hnd. vm_compute in Hi.
    assert (i = 0 \/ i = 1 \/ i = 2) as [-> | [-> | ->]] by lia;
      vm_compute in Hnd; injection Hnd as <-; eexists; reflexivity.
  - assert (Horder : traverse (tree self) = [0; 1; 3; 2; 4]) by reflexivity.
    rewrite Horder.
    repeat (constructor;
            [eexists; split; [vm_compute; reflexivity|]; intros j Hj;
             vm_compute in Hj; first [ discriminate Hj | injection Hj as <- ];
             vm_compute; lia |]).
    constructor.
  - exists s1, s2. split; [exact Hsym|]. split; [exact Hform | exact Hlen].
Defined.

Lemma exception_in_attempt_is_not_retried_witness :
  let self := constructed always cherry ["a"; "b"] in
  minimize_negloglike (ext := externals always) 1 (self, start)
  = (Raise (AttributeError "vectors"), (self, world_after 1 self start)).
Proof.
  intros self.
  apply (exception_in_attempt_is_not_retried (ext := externals always) 1 self start 0
           (AttributeError "vectors")).
  - lia.
  - intros j Hj. lia.
  - vm_compute. reflexivity.
Defined.

End MoreRuns.
